(** * sqlchat: the text-to-SQL pipeline, embedded and verified

    A shallow embedding of [ingest_utils.py], [db_utils.py], [llm_utils.py]
    and the handlers of [app.py].

    Python [str] values are sequences of Unicode code points, so a string is
    a [list N].  Calls to the MySQL server and to the OpenAI service are
    threaded through an explicit world state with a log of the calls made. *)

From Stdlib Require Import List NArith ZArith Lia Bool Ascii String QArith.
From Stdlib Require Import Numbers.DecimalString.
Import ListNotations.
Close Scope Q_scope.

Set Implicit Arguments.

(* ================================================================== *)
(** * Python strings *)
(* ================================================================== *)

Module PyStr.

Definition char := N.
Definition str := list char.

(** An ASCII literal of the source, as a sequence of code points. *)
Definition lit (s : string) : str :=
  List.map N_of_ascii (list_ascii_of_string s).

Arguments lit : simpl never.

Definition nl : str := [10%N].          (* "\n" *)
Definition dquote : str := [34%N].      (* the double quote character *)
Definition squote : char := 39%N.       (* the single quote character *)
Definition semicolon : char := 59%N.    (* ';' *)
Definition backtick : char := 96%N.     (* '`' *)

(** [str.isspace] on one code point: the white-space set of CPython. *)
Definition is_space (c : char) : bool :=
  ((9 <=? c) && (c <=? 13) || (28 <=? c) && (c <=? 32)
   || (c =? 133) || (c =? 160) || (c =? 5760)
   || (8192 <=? c) && (c <=? 8202)
   || (c =? 8232) || (c =? 8233) || (c =? 8239) || (c =? 8287)
   || (c =? 12288))%N.

(** [s.lstrip()] *)
Fixpoint lstrip (s : str) : str :=
  match s with
  | [] => []
  | c :: s' => if is_space c then lstrip s' else s
  end.

(** [s.rstrip()] *)
Definition rstrip (s : str) : str := rev (lstrip (rev s)).

(** [s.strip()]: both ends. *)
Definition strip (s : str) : str := rstrip (lstrip s).

Fixpoint str_eqb (a b : str) : bool :=
  match a, b with
  | [], [] => true
  | x :: a', y :: b' => (x =? y)%N && str_eqb a' b'
  | _, _ => false
  end.

(** [s.startswith(p)] *)
Fixpoint startswith (p s : str) : bool :=
  match p, s with
  | [], _ => true
  | _ :: _, [] => false
  | x :: p', y :: s' => (x =? y)%N && startswith p' s'
  end.

(** [p in s] *)
Fixpoint contains (p s : str) : bool :=
  startswith p s ||
  match s with
  | [] => false
  | _ :: s' => contains p s'
  end.

(** [s.replace(old, new)] for a non-empty [old]: occurrences are replaced
    from left to right without overlap.  [skip] counts the characters of a
    matched occurrence that are still to be dropped. *)
Fixpoint replace_go (old new : str) (skip : nat) (s : str) : str :=
  match s with
  | [] => []
  | c :: s' =>
      match skip with
      | S k => replace_go old new k s'
      | O =>
          if startswith old s
          then new ++ replace_go old new (List.length old - 1) s'
          else c :: replace_go old new 0 s'
      end
  end.

(** With an empty [old], Python inserts [new] before every character and
    at the end. *)
Fixpoint intersperse_all (new s : str) : str :=
  match s with
  | [] => new
  | c :: s' => new ++ c :: intersperse_all new s'
  end.

Definition replace (old new s : str) : str :=
  match old with
  | [] => intersperse_all new s
  | _ :: _ => replace_go old new 0 s
  end.

(** [s.split(sep)] for a one-character separator [sep]; [cur] is the
    fragment read so far, reversed.  The result always has one element more
    than [s] has separators. *)
Fixpoint split_go (sep : char) (cur : str) (s : str) : list str :=
  match s with
  | [] => [rev cur]
  | c :: s' =>
      if (c =? sep)%N then rev cur :: split_go sep [] s'
      else split_go sep (c :: cur) s'
  end.

Definition split (sep : char) (s : str) : list str := split_go sep [] s.

(** [sep.join(l)] *)
Fixpoint join (sep : str) (l : list str) : str :=
  match l with
  | [] => []
  | [a] => a
  | a :: l' => a ++ sep ++ join sep l'
  end.

(** [s.endswith(p)] *)
Definition endswith (p s : str) : bool := startswith (rev p) (rev s).

(** A string is trimmed when stripping leaves it alone. *)
Definition trimmed (s : str) : Prop := lstrip s = s /\ rstrip s = s.

(** [str(n)] for an [int]. *)
Definition str_of_Z (z : Z) : str :=
  lit (NilEmpty.string_of_int (Z.to_int z)).

Definition str_of_nat (n : nat) : str := str_of_Z (Z.of_nat n).

End PyStr.
Import PyStr.

(* ================================================================== *)
(** * The sanitizer: the clean-up shared by the three generation paths *)
(* ================================================================== *)

Definition fence_sql : str := lit "```sql".
Definition fence : str := lit "```".

(** The "Clean up response" block of [create_table_from_text],
    [insert_rows_from_text] and [query_handler]. *)
Definition clean (raw : str) : str :=
  let sql := strip raw in
  if startswith fence_sql sql
  then strip (replace fence [] (replace fence_sql [] sql))
  else sql.

(** [[s.strip() + ';' for s in sql.split(';') if s.strip()]] *)
Fixpoint terminate (frags : list str) : list str :=
  match frags with
  | [] => []
  | s :: rest =>
      match strip s with
      | [] => terminate rest
      | t => (t ++ [semicolon]) :: terminate rest
      end
  end.

Definition split_statements (sql : str) : list str :=
  terminate (split semicolon sql).

(** A statement body: non-empty, trimmed, free of terminators. *)
Definition body (t : str) : Prop :=
  t <> [] /\ trimmed t /\ ~ In semicolon t.

(** A body with its terminator put back. *)
Definition close (t : str) : str := t ++ [semicolon].

(** The sanitizer of [insert_rows_from_text]: clean, then split. *)
Definition sanitize (raw : str) : list str := split_statements (clean raw).

(** Follows the spec's words: [sanitize_text] re-serializes a statement set
    by joining its statements with the terminator. *)
Definition sanitize_text (stmts : list str) : str := join [semicolon] stmts.

(* ================================================================== *)
(** * Tabular data as pandas hands it to [ingest_utils.py] *)
(* ================================================================== *)

(** A scalar cell.  [VNull] stands for every value on which [pd.isna] is
    true (NaN, None, NaT).  A non-null scalar that is neither [str], [int]
    nor [bool] (a float, a Timestamp) is carried by its [str()] text. *)
Inductive value :=
| VNull
| VStr (s : str)
| VInt (z : Z)
| VBool (b : bool)
| VOther (text : str).

Definition isna (v : value) : bool :=
  match v with VNull => true | _ => false end.

Definition notna (v : value) : bool := negb (isna v).

Definition isinstance_str (v : value) : bool :=
  match v with VStr _ => true | _ => false end.

(** [str(v)] *)
Definition str_value (v : value) : str :=
  match v with
  | VNull => lit "None"
  | VStr s => s
  | VInt z => str_of_Z z
  | VBool true => lit "True"
  | VBool false => lit "False"
  | VOther text => text
  end.

(** The kinds of column dtype that [pd.api.types] tells apart. *)
Inductive dtype :=
| int64 | float64 | bool_ | datetime64 | object_ | timedelta64 | category.

Definition is_integer_dtype (d : dtype) : bool :=
  match d with int64 => true | _ => false end.
Definition is_float_dtype (d : dtype) : bool :=
  match d with float64 => true | _ => false end.
Definition is_bool_dtype (d : dtype) : bool :=
  match d with bool_ => true | _ => false end.
Definition is_datetime64_any_dtype (d : dtype) : bool :=
  match d with datetime64 => true | _ => false end.

(** [max(l, default=d)] *)
Definition max_default (l : list nat) (d : nat) : nat :=
  match l with
  | [] => d
  | x :: l' => fold_left Nat.max l' x
  end.

(** [[len(str(v)) for v in sample_values if pd.notna(v)]] *)
Definition sample_lengths (sample_values : list value) : list nat :=
  List.map (fun v => List.length (str_value v)) (filter notna sample_values).

Definition infer_sql_type (d : dtype) (sample_values : list value) : str :=
  if is_integer_dtype d then lit "INT"
  else if is_float_dtype d then lit "FLOAT"
  else if is_bool_dtype d then lit "BOOLEAN"
  else if is_datetime64_any_dtype d then lit "DATETIME"
  else
    let max_len := max_default (sample_lengths sample_values) 255 in
    lit "VARCHAR(" ++ str_of_nat (Nat.min (max_len * 2) 500) ++ lit ")".

(** Follows the spec's words: [m] is the max_observed_length of the
    samples, the greatest length among the non-null samples, or 255 when
    no non-null sample exists. *)
Definition max_observed_length (sample_values : list value) (m : nat)
  : Prop :=
  ((forall v, In v sample_values -> notna v = false) /\ m = 255)
  \/
  ((exists v, In v sample_values /\ notna v = true
              /\ List.length (str_value v) = m)
   /\ (forall v, In v sample_values -> notna v = true ->
                 List.length (str_value v) <= m)).

(** A DataFrame: the header with the dtype of each column, and the rows in
    file order.  Every row has one cell per column. *)
Record DataFrame := {
  df_columns : list (str * dtype);
  df_rows : list (list value)
}.

Definition df_empty (df : DataFrame) : bool :=
  match df_columns df, df_rows df with
  | [], _ => true
  | _, [] => true
  | _, _ => false
  end.

(** [df[col]] for the column at position [i]. *)
Definition column_values (df : DataFrame) (i : nat) : list value :=
  List.map (fun r => nth i r VNull) (df_rows df).

(** [series.head()]: the first five values. *)
Definition head (vals : list value) : list value := firstn 5 vals.

(** [col.strip().replace(' ', '_').replace('-', '_')] *)
Definition clean_col (col : str) : str :=
  replace (lit "-") (lit "_") (replace (lit " ") (lit "_") (strip col)).

(** The loop that fills [columns] in [csv_to_sql]; [i] is the position of
    the first column of [cols]. *)
Fixpoint column_defs (df : DataFrame) (i : nat) (cols : list (str * dtype))
  : list str :=
  match cols with
  | [] => []
  | (col, d) :: rest =>
      let sql_type := infer_sql_type d (head (column_values df i)) in
      (clean_col col ++ lit " " ++ sql_type) :: column_defs df (S i) rest
  end.

Definition create_stmt (df : DataFrame) (table_name : str) : str :=
  lit "CREATE TABLE " ++ table_name ++ lit " ("
  ++ join (lit ", ") (column_defs df 0 (df_columns df)) ++ lit ");".

(** What the escaping of quotes does to one character. *)
Definition double_quote (c : char) : str :=
  if (c =? squote)%N then [squote; squote] else [c].

(** One cell of an INSERT: the body of [for val in row]. *)
Definition render_value (val : value) : str :=
  if isna val then lit "NULL"
  else if isinstance_str val then
    (* [val] is a [str]: its text is [str_value val] *)
    let escaped := replace (lit "'") (lit "''") (str_value val) in
    lit "'" ++ escaped ++ lit "'"
  else str_value val.

Definition insert_stmt (table_name : str) (row : list value) : str :=
  lit "INSERT INTO " ++ table_name ++ lit " VALUES ("
  ++ join (lit ", ") (List.map render_value row) ++ lit ");".

(* ================================================================== *)
(** * The outside world: MySQL, OpenAI, the file system *)
(* ================================================================== *)

(** A result row of the storage engine (a tuple). *)
Definition Row := list value.

(** What the connection holds after [cursor.execute] succeeded.
    [fetchall] can itself raise a [mysql.connector.Error] (no result set),
    and so can [connection.commit()] right after the statement (unread
    result, lost connection): [commit] is [None] when it goes through and
    the text of the error otherwise. *)
Record Cursor := {
  description : option (list str);
  fetchall : str + list Row;
  rowcount : Z;
  commit : option str
}.

(** The external collaborators over a state [St] of their own.  A left
    injection carries the text of the exception raised. *)
Record Services (St : Type) := {
  (** [mysql.connector.connect(...)] gave a live connection. *)
  mysql_connect : St -> bool;
  (** [cursor.execute(query)] *)
  cursor_execute : str -> St -> (str + Cursor) * St;
  (** [client.chat.completions.create(model, messages, temperature)],
      down to [response.choices[0].message.content]. *)
  chat_completion : str -> str -> Q -> St -> (str + str) * St;
  (** [pd.read_csv(file_path)] *)
  read_csv : str -> St -> str + DataFrame;
  (** [str(row)] of a result tuple and [str(rows)] of the list of them. *)
  str_row : Row -> str;
  str_rows : list Row -> str
}.

(** The calls the claims are about, in the order the program makes them:
    connection attempts, statements sent, backend calls, file reads. *)
Inductive Event :=
| EvConnect
| EvExecute (query : str)
| EvComplete (prompt : str) (temperature : Q)
| EvReadCsv (file_path : str).

Record World (St : Type) := {
  ext : St;
  log : list Event
}.

(** State passing over the world. *)
Definition M (St A : Type) : Type := World St -> A * World St.

Definition ret {St A : Type} (a : A) : M St A := fun w => (a, w).

Definition bind {St A B : Type} (m : M St A) (k : A -> M St B) : M St B :=
  fun w => let (a, w') := m w in k a w'.

Notation "x <- m ;; k" := (bind m (fun x => k))
  (at level 61, m at next level, right associativity).

Definition emit {St : Type} (e : Event) : M St unit :=
  fun w => (tt, {| ext := ext w; log := log w ++ [e] |}).

(** Run an external call on the collaborators' state. *)
Definition call {St A : Type} (f : St -> A * St) : M St A :=
  fun w => let (a, s') := f (ext w) in (a, {| ext := s'; log := log w |}).

Definition peek {St A : Type} (f : St -> A) : M St A :=
  fun w => (f (ext w), w).

(** The log only ever grows. *)
Definition grows {St : Type} (w w' : World St) : Prop :=
  exists l, log w' = log w ++ l.

(** What a Python function hands back: a value, or an exception that
    nobody caught. *)
Inductive outcome (A : Type) :=
| Return (a : A)
| Raise (exn : str).
Arguments Raise {A} exn.

Definition is_empty (s : str) : bool :=
  match s with [] => true | _ :: _ => false end.

(* ================================================================== *)
(** * [db_utils.py] *)
(* ================================================================== *)

(** The dictionary [{"columns": ..., "rows": ...}] of [run_sql]. *)
Record ResultSet := {
  columns : list str;
  rows : list Row
}.

(** [run_sql] returns a message, or with [fetch=True] a message or a
    result set. *)
Definition sql_result (fetch : bool) : Type :=
  if fetch then (str + ResultSet)%type else str.

Definition message (fetch : bool) (s : str) : sql_result fetch :=
  match fetch return sql_result fetch with
  | true => inl s
  | false => s
  end.

Section Pipeline.

Context {St : Type} (sv : Services St).

Definition get_mysql_connection : M St bool :=
  _ <- emit (EvConnect) ;;
  peek (mysql_connect sv).

Definition execute (query : str) : M St (str + Cursor) :=
  _ <- emit (EvExecute query) ;;
  call (cursor_execute sv query).

Definition run_sql (query : str) (fetch : bool) : M St (sql_result fetch) :=
  connection <- get_mysql_connection ;;
  if negb connection
  then ret (message fetch (lit "Error: Could not connect to database"))
  else
    r <- execute query ;;
    match r with
    | inl e => ret (message fetch (lit "Error executing query: " ++ e))
    | inr cursor =>
        match fetch return M St (sql_result fetch) with
        | true =>
            match fetchall cursor with
            | inl e => ret (inl (lit "Error executing query: " ++ e))
            | inr results =>
                let cols := match description cursor with
                            | Some d => d
                            | None => []
                            end in
                ret (inr {| columns := cols; rows := results |})
            end
        | false =>
            match commit cursor with
            | Some e => ret (lit "Error executing query: " ++ e)
            | None =>
                ret (lit "Success: Query executed. Rows affected: "
                     ++ str_of_Z (rowcount cursor))
            end
        end
    end.

(** One line of the schema text: [f"  - {col[0]} ({col[1]})\n"]. *)
Definition schema_line (col : Row) : str :=
  lit "  - " ++ str_value (nth 0 col VNull) ++ lit " ("
  ++ str_value (nth 1 col VNull) ++ lit ")" ++ nl.

Definition get_table_schema (table_name : str) : M St str :=
  connection <- get_mysql_connection ;;
  if negb connection
  then ret (lit "Error: Could not connect to database")
  else
    r <- execute (lit "DESCRIBE " ++ table_name) ;;
    match r with
    | inl e => ret (lit "Error fetching schema: " ++ e)
    | inr cursor =>
        match fetchall cursor with
        | inl e => ret (lit "Error fetching schema: " ++ e)
        | inr schema =>
            ret (lit "Table: " ++ table_name ++ nl ++ lit "Columns:" ++ nl
                 ++ List.concat (List.map schema_line schema))
        end
    end.

(* ================================================================== *)
(** * [llm_utils.py] *)
(* ================================================================== *)

Definition default_model : str := lit "gpt-4o-mini".

Definition call_llm (prompt : str) (temperature : Q) : M St str :=
  _ <- emit (EvComplete prompt temperature) ;;
  r <- call (chat_completion sv default_model prompt temperature) ;;
  match r with
  | inr content => ret (strip content)
  | inl e => ret (lit "Error calling LLM: " ++ e)
  end.

Definition create_table_prompt (description : str) : str :=
  join nl
    [ lit "You are a SQL expert. Convert the following natural language description into a MySQL CREATE TABLE statement.";
      [];
      lit "User description: " ++ dquote ++ description ++ dquote;
      [];
      lit "Requirements:";
      lit "- Use appropriate data types (INT, VARCHAR, FLOAT, DATE, etc.)";
      lit "- Include PRIMARY KEY where appropriate";
      lit "- Use NOT NULL constraints when fields are essential";
      lit "- Return ONLY the SQL statement, no explanation";
      [];
      lit "Example:";
      lit "Input: " ++ dquote
        ++ lit "Create a table called students with id, name, and gpa"
        ++ dquote;
      lit "Output: CREATE TABLE students (id INT PRIMARY KEY AUTO_INCREMENT, name VARCHAR(100) NOT NULL, gpa FLOAT);";
      [];
      lit "Now generate the CREATE TABLE statement:" ].

Definition prompt_create_table (description : str) : M St str :=
  call_llm (create_table_prompt description) 0.

Definition insert_rows_prompt (table_name rows_description : str) : str :=
  join nl
    [ lit "You are a SQL expert. Convert the following natural language description into MySQL INSERT statements for the table '"
        ++ table_name ++ lit "'.";
      [];
      lit "User description: " ++ dquote ++ rows_description ++ dquote;
      [];
      lit "Requirements:";
      lit "- Generate INSERT INTO statements";
      lit "- Infer appropriate values and data types";
      lit "- Return ONLY the SQL statements, one per line, no explanation";
      lit "- Use single quotes for strings";
      [];
      lit "Example:";
      lit "Input for table 'students': " ++ dquote
        ++ lit "Add Alice with GPA 3.8 and Bob with GPA 3.5" ++ dquote;
      lit "Output:";
      lit "INSERT INTO students (name, gpa) VALUES ('Alice', 3.8);";
      lit "INSERT INTO students (name, gpa) VALUES ('Bob', 3.5);";
      [];
      lit "Now generate the INSERT statements:" ].

Definition prompt_insert_rows (table_name rows_description : str)
  : M St str :=
  call_llm (insert_rows_prompt table_name rows_description) 0.

Definition text_to_sql_prompt (question schema : str) : str :=
  join nl
    [ lit "You are a SQL expert. Convert the following question into a MySQL SELECT query.";
      [];
      lit "Table Schema:";
      schema;
      [];
      lit "Question: " ++ dquote ++ question ++ dquote;
      [];
      lit "Requirements:";
      lit "- Write a valid MySQL SELECT query";
      lit "- Use appropriate WHERE, ORDER BY, GROUP BY, LIMIT clauses as needed";
      lit "- Return ONLY the SQL query, no explanation";
      [];
      lit "Example:";
      lit "Schema: Table students (id INT, name VARCHAR, gpa FLOAT)";
      lit "Question: " ++ dquote ++ lit "Which students have GPA above 3.5?"
        ++ dquote;
      lit "Output: SELECT name, gpa FROM students WHERE gpa > 3.5;";
      [];
      lit "Now generate the SQL query:" ].

Definition prompt_text_to_sql (question schema : str) : M St str :=
  call_llm (text_to_sql_prompt question schema) 0.

Definition explain_results_prompt (question sql_query : str)
  (results : list Row) : str :=
  join nl
    [ lit "You are a helpful assistant. Explain the following database query results in simple, natural language.";
      [];
      lit "Question: " ++ dquote ++ question ++ dquote;
      lit "SQL Query: " ++ sql_query;
      lit "Results: " ++ str_rows sv results;
      [];
      lit "Provide a brief, clear explanation (2-3 sentences maximum) of what the results show.";
      [];
      lit "Example:";
      lit "Question: " ++ dquote ++ lit "Which students have GPA above 3.5?"
        ++ dquote;
      lit "Results: [('Alice', 3.8), ('Bob', 3.9)]";
      lit "Explanation: " ++ dquote
        ++ lit "Two students have a GPA above 3.5: Alice with 3.8 and Bob with 3.9."
        ++ dquote;
      [];
      lit "Now provide your explanation:" ].

Definition prompt_explain_results (question sql_query : str)
  (results : list Row) : M St str :=
  call_llm (explain_results_prompt question sql_query results) (3 # 10).

(* ================================================================== *)
(** * [ingest_utils.py] *)
(* ================================================================== *)

(** The loop over [df.iterrows()]; [insert_count] is carried along. *)
Fixpoint insert_loop (table_name : str) (rws : list (list value))
  (insert_count : nat) : M St nat :=
  match rws with
  | [] => ret insert_count
  | row :: rest =>
      result <- run_sql (insert_stmt table_name row) false ;;
      if negb (contains (lit "Error") result)
      then insert_loop table_name rest (insert_count + 1)
      else insert_loop table_name rest insert_count
  end.

Definition csv_to_sql (file_path table_name : str) : M St str :=
  _ <- emit (EvReadCsv file_path) ;;
  r <- peek (read_csv sv file_path) ;;
  match r with
  | inl e => ret (lit "Error processing CSV: " ++ e)
  | inr df =>
      if df_empty df then ret (lit "Error: CSV file is empty")
      else
        result <- run_sql (create_stmt df table_name) false ;;
        if contains (lit "Error") result
        then ret (lit "Error creating table: " ++ result)
        else
          insert_count <- insert_loop table_name (df_rows df) 0 ;;
          ret (lit "Success! Created table '" ++ table_name
               ++ lit "' and inserted " ++ str_of_nat insert_count
               ++ lit " rows.")
  end.

Definition create_table_from_text (description : str) : M St str :=
  sql <- prompt_create_table description ;;
  let sql := clean sql in
  result <- run_sql sql false ;;
  ret (lit "Generated SQL:" ++ nl ++ sql ++ nl ++ nl
       ++ lit "Result: " ++ result).

(** The loop [for stmt in statements] with its [results.append]. *)
Fixpoint run_statements (statements : list str) : M St (list str) :=
  match statements with
  | [] => ret []
  | stmt :: rest =>
      result <- run_sql stmt false ;;
      results <- run_statements rest ;;
      ret (result :: results)
  end.

Definition insert_rows_from_text (table_name rows_description : str)
  : M St str :=
  sql <- prompt_insert_rows table_name rows_description ;;
  let sql := clean sql in
  let statements := split_statements sql in
  results <- run_statements statements ;;
  ret (lit "Generated SQL:" ++ nl ++ sql ++ nl ++ nl ++ lit "Results:"
       ++ nl ++ join nl results).

(* ================================================================== *)
(** * [app.py]: the four handlers *)
(* ================================================================== *)

(** [file] is [None] or an upload with its [file.name]. *)
Definition upload_csv_handler (file : option str) (table_name : str)
  : M St str :=
  match file with
  | None => ret (lit "Please upload a CSV file")
  | Some name =>
      if is_empty table_name then ret (lit "Please provide a table name")
      else csv_to_sql name table_name
  end.

Definition create_table_handler (description : str) : M St str :=
  if is_empty description
  then ret (lit "Please provide a table description")
  else create_table_from_text description.

Definition insert_rows_handler (table_name rows_description : str)
  : M St str :=
  if is_empty table_name || is_empty rows_description
  then ret (lit "Please provide both table name and row description")
  else insert_rows_from_text table_name rows_description.

(** [result_text]: the header line and one line per row. *)
Definition format_results (results : ResultSet) : str :=
  lit "Columns: " ++ join (lit ", ") (columns results) ++ nl ++ nl
  ++ List.concat (List.map (fun row => str_row sv row ++ nl) (rows results)).

Definition query_handler (question table_name : str)
  : M St (outcome (str * str * str)) :=
  if is_empty question || is_empty table_name
  then ret (Return
              (lit "Please provide both a question and select a table",
               [], []))
  else
    schema <- get_table_schema table_name ;;
    sql <- prompt_text_to_sql question schema ;;
    let sql := clean sql in
    results <- run_sql sql true ;;
    match results with
    | inl text =>
        if contains (lit "Error") text
        then ret (Return (text, sql, []))
        else
          (* [results['columns']] on a [str] *)
          ret (Raise (lit "TypeError: string indices must be integers"))
    | inr res =>
        let result_text := format_results res in
        explanation <- prompt_explain_results question sql (rows res) ;;
        ret (Return (result_text, sql, explanation))
    end.

End Pipeline.

(* ================================================================== *)
(** * A small storage engine and a scripted backend, for concrete runs *)
(* ================================================================== *)

Module Toy.

(** The state of the toy engine: the names of the tables that exist. *)
Definition St := list str.

Definition known (name : str) (tables : St) : bool :=
  existsb (str_eqb name) tables.

Fixpoint first_word (s : str) : str :=
  match s with
  | [] => []
  | c :: s' => if is_space c then [] else c :: first_word s'
  end.

Definition no_result_set : str + list Row :=
  inl (lit "No result set to fetch from.").

(** Committing while rows are still unread is refused. *)
Definition unread_result : option str := Some (lit "Unread result found").

(** DESCRIBE answers for known tables only; CREATE TABLE fails on a name
    that is taken; INSERT INTO and SELECT succeed; anything else is a
    syntax error.  Statements that return rows cannot be committed before
    the rows are fetched. *)
Definition toy_execute (query : str) (tables : St)
  : (str + Cursor) * St :=
  if startswith (lit "DESCRIBE ") query then
    let name := skipn 9 query in
    if known name tables
    then (inr {| description := Some [lit "Field"; lit "Type"];
                 fetchall := inr [[VStr (lit "id"); VStr (lit "int")]];
                 rowcount := 1; commit := unread_result |}, tables)
    else (inl (lit "1146 (42S02): Table 'chatdb." ++ name
               ++ lit "' doesn't exist"), tables)
  else if startswith (lit "CREATE TABLE ") query then
    let name := first_word (skipn 13 query) in
    if known name tables
    then (inl (lit "1050 (42S01): Table '" ++ name
               ++ lit "' already exists"), tables)
    else (inr {| description := None; fetchall := no_result_set;
                 rowcount := 0; commit := None |}, name :: tables)
  else if startswith (lit "INSERT INTO ") query then
    (inr {| description := None; fetchall := no_result_set;
            rowcount := 1; commit := None |}, tables)
  else if startswith (lit "SELECT ") query then
    (inr {| description := Some [lit "1"]; fetchall := inr [[VInt 1]];
            rowcount := 1; commit := unread_result |}, tables)
  else
    (inl (lit "1064 (42000): You have an error in your SQL syntax"),
     tables).

(** A plain rendering of a row for the concrete runs; it stands in for
    Python's [str] of a tuple and is not meant to reproduce it. *)
Definition toy_str_row (r : Row) : str :=
  lit "(" ++ join (lit ", ") (List.map str_value r) ++ lit ")".

(** The backend answers every prompt with [reply]; the file system holds
    [csv] under every path. *)
Definition services (reply : str + str) (csv : str + DataFrame)
  : Services St :=
  {| mysql_connect := fun _ => true;
     cursor_execute := toy_execute;
     chat_completion := fun _ _ _ tables => (reply, tables);
     read_csv := fun _ _ => csv;
     str_row := toy_str_row;
     str_rows := fun rs =>
       lit "[" ++ join (lit ", ") (List.map toy_str_row rs) ++ lit "]" |}.

Definition start (tables : St) : World St :=
  {| ext := tables; log := [] |}.

Definition no_csv : str + DataFrame := inl (lit "No such file").

(** The fenced example of the spec, with a tagged and with a bare fence. *)
Definition fenced_select (tag : str) : str :=
  lit "```" ++ tag ++ nl ++ lit "SELECT 1;" ++ nl ++ lit "```".

(** Three INSERT statements, the second one misspelt. *)
Definition three_inserts : str :=
  lit "INSERT INTO t VALUES (1);" ++ nl
  ++ lit "INSRT INTO t VALUES (2);" ++ nl
  ++ lit "INSERT INTO t VALUES (3);".

(** A table with a name and a score, the second score missing. *)
Definition people : DataFrame :=
  {| df_columns := [(lit "name", object_); (lit "score", float64)];
     df_rows := [ [VStr (lit "Alice"); VOther (lit "90.0")];
                  [VStr (lit "O'Brien"); VNull] ] |}.

(** Six rows of one text column; only the sixth value is long. *)
Definition short_then_long (last : str) : DataFrame :=
  {| df_columns := [(lit "note", object_)];
     df_rows := [ [VStr (lit "a")]; [VStr (lit "bb")]; [VStr (lit "c")];
                  [VStr (lit "d")]; [VStr (lit "e")]; [VStr last] ] |}.

End Toy.

(* ================================================================== *)
(** * [db_utils.py], continued *)
(* ================================================================== *)

Section Catalog.

Context {St : Type} (sv : Services St).

(** [list_tables]: the first cell of every row of SHOW TABLES (its rows
    have one cell).  When the connection or the statement fails the error
    is only printed and the empty list comes back. *)
Definition list_tables : M St (list value) :=
  connection <- get_mysql_connection sv ;;
  if negb connection then ret []
  else
    r <- execute sv (lit "SHOW TABLES") ;;
    match r with
    | inl _ => ret []
    | inr cursor =>
        match fetchall cursor with
        | inl _ => ret []
        | inr fetched =>
            ret (List.map (fun table => nth 0 table VNull) fetched)
        end
    end.

(** The statement [query] goes through on the engine state [s] when
    sent by [run_sql(query, fetch=False)]: the connection is live, and
    neither [cursor.execute] nor [connection.commit] raises. *)
Definition statement_succeeds (query : str) (s : St) : bool :=
  mysql_connect sv s
  && match fst (cursor_execute sv query s) with
     | inr cursor =>
         match commit cursor with
         | None => true
         | Some _ => false
         end
     | inl _ => false
     end.

(** DESCRIBE goes through and its rows can be fetched. *)
Definition lookup_succeeds (table_name : str) (s : St) : bool :=
  mysql_connect sv s
  && match fst (cursor_execute sv (lit "DESCRIBE " ++ table_name) s) with
     | inr cursor =>
         match fetchall cursor with
         | inr _ => true
         | inl _ => false
         end
     | inl _ => false
     end.

(** The world in which the next statement of a batch runs: every
    statement before it was sent by [run_sql], one after the other, each
    in the world its predecessors left behind. *)
Definition world_after (statements : list str) (w : World St) : World St :=
  fold_left (fun w' stmt => snd (run_sql sv stmt false w')) statements w.

End Catalog.

(** The world once [pd.read_csv] has been called on [file_path]. *)
Definition after_read {St : Type} (w : World St) (file_path : str)
  : World St :=
  {| ext := ext w; log := log w ++ [EvReadCsv file_path] |}.

(** The two characters that [csv_to_sql] turns into underscores. *)
Definition underscore_for (c : char) : char :=
  if (c =? 32)%N || (c =? 45)%N then 95%N else c.

(* ================================================================== *)
(** * Two more engines for concrete runs *)
(* ================================================================== *)

Module Stubs.

Definition catalog : list Row :=
  [[VStr (lit "students")]; [VStr (lit "courses")]].

(** An engine that accepts every statement and counts them; the backend
    always answers [SELECT 1;]. *)
Definition lenient (csv : str + DataFrame) : Services nat :=
  {| mysql_connect := fun _ => true;
     cursor_execute := fun _ n =>
       (inr {| description := Some [lit "Tables_in_chatdb"];
               fetchall := inr catalog;
               rowcount := 1; commit := None |}, S n);
     chat_completion := fun _ _ _ n => (inr (lit "SELECT 1;"), n);
     read_csv := fun _ _ => csv;
     str_row := Toy.toy_str_row;
     str_rows := fun rs =>
       lit "[" ++ join (lit ", ") (List.map Toy.toy_str_row rs) ++ lit "]" |}.

(** The same engine behind a backend that is down for the CREATE TABLE
    prompt only. *)
Definition create_down : Services nat :=
  {| mysql_connect := fun _ => true;
     cursor_execute := cursor_execute (lenient (inl []));
     chat_completion := fun _ prompt _ n =>
       if startswith (lit "You are a SQL expert. Convert the following natural language description into a MySQL CREATE TABLE") prompt
       then (inl (lit "timeout"), n)
       else (inr (lit "SELECT 1;"), n);
     read_csv := fun _ _ => inl [];
     str_row := Toy.toy_str_row;
     str_rows := fun _ => lit "[]" |}.

(** An engine that cannot be reached. *)
Definition offline (csv : str + DataFrame) : Services nat :=
  {| mysql_connect := fun _ => false;
     cursor_execute := fun _ n => (inl (lit "2003: Can't connect"), n);
     chat_completion := fun _ _ _ n => (inr (lit "SELECT 1;"), n);
     read_csv := fun _ _ => csv;
     str_row := Toy.toy_str_row;
     str_rows := fun _ => lit "[]" |}.

Definition start : World nat := {| ext := 0; log := [] |}.

(** A header without any row. *)
Definition header_only : DataFrame :=
  {| df_columns := [(lit "name", object_)]; df_rows := [] |}.

End Stubs.

(* ================================================================== *)
(** * Facts about the string primitives *)
(* ================================================================== *)

Unset Implicit Arguments.

Module StrFacts.

Lemma semicolon_not_space : is_space semicolon = false.
Proof. reflexivity. Qed.

Lemma startswith_spec (p s : str) :
  startswith p s = true <-> exists q, s = p ++ q.
Proof.
  revert s; induction p as [|x p IH]; intros s; simpl.
  - split; [intros _; now exists s | reflexivity].
  - destruct s as [|y s]; simpl.
    + split; [discriminate | intros [q Hq]; discriminate].
    + rewrite andb_true_iff, N.eqb_eq, IH. split.
      * intros [-> [q ->]]. now exists q.
      * intros [q Hq]. injection Hq as -> ->. split; [reflexivity | now exists q].
Qed.

Lemma startswith_app (p q : str) : startswith p (p ++ q) = true.
Proof. apply startswith_spec. now exists q. Qed.

Lemma contains_spec (p s : str) :
  contains p s = true <-> exists a b, s = a ++ p ++ b.
Proof.
  induction s as [|c s IH].
  - simpl. rewrite orb_false_r, startswith_spec. split.
    + intros [q Hq]. now exists [], q.
    + intros [a [b H]]. destruct a; [now exists b | discriminate].
  - cbn [contains]. rewrite orb_true_iff, startswith_spec, IH. split.
    + intros [[q Hq] | [a [b H]]].
      * now exists [], q.
      * exists (c :: a), b. now rewrite H.
    + intros [a [b H]]. destruct a as [|x a].
      * left. now exists b.
      * right. injection H as _ H. now exists a, b.
Qed.

Lemma contains_infix (p a s b : str) :
  contains p s = true -> contains p (a ++ s ++ b) = true.
Proof.
  rewrite !contains_spec. intros [u [v ->]].
  exists (a ++ u), (v ++ b). now rewrite <- !app_assoc.
Qed.

(** ** Stripping *)

Lemma lstrip_nonspace (c : char) (s : str) :
  is_space c = false -> lstrip (c :: s) = c :: s.
Proof. intros H. simpl. now rewrite H. Qed.

Lemma lstrip_head (s : str) (c : char) (t : str) :
  lstrip s = c :: t -> is_space c = false.
Proof.
  induction s as [|x s IH]; simpl; [discriminate|].
  destruct (is_space x) eqn:E; [exact IH|].
  intros H. injection H as -> _. exact E.
Qed.

Lemma lstrip_decomp (s : str) :
  exists a, s = a ++ lstrip s /\ forallb is_space a = true.
Proof.
  induction s as [|x s [a [IH1 IH2]]]; simpl.
  - now exists [].
  - destruct (is_space x) eqn:E.
    + exists (x :: a). simpl. rewrite E, IH2. split; [now f_equal | reflexivity].
    + now exists [].
Qed.

Lemma lstrip_idem (s : str) : lstrip (lstrip s) = lstrip s.
Proof.
  destruct (lstrip s) as [|c t] eqn:E; [reflexivity|].
  apply lstrip_nonspace. exact (lstrip_head _ _ _ E).
Qed.

Lemma lstrip_nil_iff (s : str) :
  lstrip s = [] <-> forallb is_space s = true.
Proof.
  induction s as [|x s IH]; simpl; [tauto|].
  destruct (is_space x); simpl; [exact IH | split; discriminate].
Qed.

Lemma lstrip_snoc (s : str) (c : char) :
  is_space c = false -> lstrip (s ++ [c]) = lstrip s ++ [c].
Proof.
  intros H. induction s as [|x s IH]; simpl.
  - now rewrite H.
  - destruct (is_space x); [exact IH | reflexivity].
Qed.

Lemma rstrip_nil : rstrip [] = [].
Proof. reflexivity. Qed.

Lemma rstrip_snoc (s : str) (c : char) :
  is_space c = false -> rstrip (s ++ [c]) = s ++ [c].
Proof.
  intros H. unfold rstrip. rewrite rev_app_distr. simpl.
  rewrite H. simpl. now rewrite rev_involutive.
Qed.

Lemma rstrip_cons (c : char) (s : str) :
  is_space c = false -> rstrip (c :: s) = c :: rstrip s.
Proof.
  intros H. unfold rstrip. simpl.
  rewrite (lstrip_snoc _ _ H), rev_app_distr. reflexivity.
Qed.

Lemma rstrip_idem (s : str) : rstrip (rstrip s) = rstrip s.
Proof. unfold rstrip. now rewrite rev_involutive, lstrip_idem. Qed.

Lemma rstrip_decomp (s : str) :
  exists b, s = rstrip s ++ b /\ forallb is_space b = true.
Proof.
  destruct (lstrip_decomp (rev s)) as [a [H1 H2]].
  exists (rev a). split.
  - unfold rstrip. rewrite <- rev_app_distr, <- H1. now rewrite rev_involutive.
  - rewrite forallb_forall in *. intros x Hx. apply H2. now apply in_rev.
Qed.

Lemma rstrip_nil_iff (s : str) :
  rstrip s = [] <-> forallb is_space s = true.
Proof.
  unfold rstrip. split.
  - intros H. apply (f_equal (@rev char)) in H. rewrite rev_involutive in H.
    simpl in H. apply lstrip_nil_iff in H.
    rewrite forallb_forall in *. intros x Hx. apply H. now apply -> in_rev.
  - intros H. assert (E : lstrip (rev s) = []).
    { apply lstrip_nil_iff. rewrite forallb_forall in *.
      intros x Hx. apply H. now apply in_rev. }
    now rewrite E.
Qed.

Lemma strip_cases (s : str) :
  (lstrip s = [] /\ strip s = []) \/
  (exists c t, lstrip s = c :: t /\ is_space c = false
               /\ strip s = c :: rstrip t).
Proof.
  unfold strip. destruct (lstrip s) as [|c t] eqn:E.
  - left. split; reflexivity.
  - right. exists c, t. pose proof (lstrip_head _ _ _ E) as Hc.
    repeat split; [exact Hc | now apply rstrip_cons].
Qed.

Lemma strip_trimmed (s : str) : trimmed (strip s).
Proof.
  split.
  - destruct (strip_cases s) as [[_ ->] | [c [t [_ [Hc ->]]]]].
    + reflexivity.
    + now apply lstrip_nonspace.
  - unfold strip. apply rstrip_idem.
Qed.

Lemma trimmed_strip (s : str) : trimmed s -> strip s = s.
Proof. intros [H1 H2]. unfold strip. now rewrite H1. Qed.

Lemma strip_idem (s : str) : strip (strip s) = strip s.
Proof. apply trimmed_strip, strip_trimmed. Qed.

Lemma strip_nil_iff (s : str) :
  strip s = [] <-> forallb is_space s = true.
Proof.
  rewrite <- lstrip_nil_iff.
  destruct (strip_cases s) as [[H1 H2] | [c [t [H1 [_ H2]]]]];
    rewrite H1, H2; split; congruence.
Qed.

Lemma strip_infix (s : str) : exists a b, s = a ++ strip s ++ b.
Proof.
  destruct (lstrip_decomp s) as [a [Ha _]].
  destruct (rstrip_decomp (lstrip s)) as [b [Hb _]].
  exists a, b. unfold strip. now rewrite <- Hb.
Qed.

Lemma strip_subset (s : str) (c : char) : In c (strip s) -> In c s.
Proof.
  destruct (strip_infix s) as [a [b H]]. intros Hc. rewrite H.
  apply in_or_app. right. apply in_or_app. now left.
Qed.

(** The shape the pipeline relies on: a text that opens with a non-space
    character and closes with one is left alone by [strip]. *)
Lemma strip_fixed (c d : char) (m : str) :
  is_space c = false -> is_space d = false ->
  strip (c :: m ++ [d]) = c :: m ++ [d].
Proof.
  intros Hc Hd. unfold strip. rewrite (lstrip_nonspace _ _ Hc).
  change (c :: m ++ [d]) with ((c :: m) ++ [d]). now apply rstrip_snoc.
Qed.

Lemma trimmed_head (s : str) (c : char) (t : str) :
  trimmed s -> s = c :: t -> is_space c = false.
Proof. intros [H _] ->. exact (lstrip_head _ _ _ H). Qed.

Lemma strip_nonempty_char (s : str) :
  strip s <> [] <-> exists c, In c s /\ is_space c = false.
Proof.
  rewrite strip_nil_iff. split.
  - intros H. destruct (forallb is_space s) eqn:E; [congruence|].
    clear H. induction s as [|x s IH]; simpl in E; [discriminate|].
    destruct (is_space x) eqn:Ex.
    + destruct (IH E) as [c [H1 H2]]. exists c. split; [now right | exact H2].
    + exists x. split; [now left | exact Ex].
  - intros [c [H1 H2]] H. rewrite forallb_forall in H.
    specialize (H c H1). congruence.
Qed.

End StrFacts.

(* ================================================================== *)
(** * Facts about splitting and about the sanitizer *)
(* ================================================================== *)

Module SplitFacts.
Import StrFacts.

Lemma split_go_no_sep (sep : char) (a cur : str) :
  ~ In sep a -> split_go sep cur a = [rev cur ++ a].
Proof.
  revert cur; induction a as [|c a IH]; intros cur H; simpl.
  - now rewrite app_nil_r.
  - destruct (N.eqb_spec c sep) as [->|Hne].
    + exfalso. apply H. now left.
    + rewrite IH by (intros Hin; apply H; now right).
      simpl. now rewrite <- app_assoc.
Qed.

Lemma split_go_at_sep (sep : char) (a b cur : str) :
  ~ In sep a ->
  split_go sep cur (a ++ sep :: b) = (rev cur ++ a) :: split_go sep [] b.
Proof.
  revert cur; induction a as [|c a IH]; intros cur H; simpl.
  - now rewrite N.eqb_refl, app_nil_r.
  - destruct (N.eqb_spec c sep) as [->|Hne].
    + exfalso. apply H. now left.
    + rewrite IH by (intros Hin; apply H; now right).
      simpl. now rewrite <- app_assoc.
Qed.

Lemma split_no_sep (sep : char) (a : str) :
  ~ In sep a -> split sep a = [a].
Proof. intros H. unfold split. now rewrite split_go_no_sep. Qed.

Lemma split_at_sep (sep : char) (a b : str) :
  ~ In sep a -> split sep (a ++ sep :: b) = a :: split sep b.
Proof. intros H. unfold split. now rewrite split_go_at_sep. Qed.

(** The fragments, put back together, are the text without separators. *)
Lemma split_go_concat (sep : char) (s cur : str) :
  List.concat (split_go sep cur s)
  = rev cur ++ filter (fun c => negb (c =? sep)%N) s.
Proof.
  revert cur; induction s as [|c s IH]; intros cur; simpl.
  - now rewrite !app_nil_r.
  - destruct (c =? sep)%N; simpl.
    + rewrite IH. reflexivity.
    + rewrite IH. simpl. now rewrite <- app_assoc.
Qed.

Lemma split_concat (sep : char) (s : str) :
  List.concat (split sep s) = filter (fun c => negb (c =? sep)%N) s.
Proof. unfold split. now rewrite split_go_concat. Qed.

Lemma split_fragment_chars (sep : char) (s f : str) (c : char) :
  In f (split sep s) -> In c f -> In c s /\ c <> sep.
Proof.
  intros Hf Hc.
  assert (H : In c (List.concat (split sep s))).
  { apply in_concat. now exists f. }
  rewrite split_concat in H. apply filter_In in H.
  destruct H as [H1 H2]. split; [exact H1|].
  apply negb_true_iff in H2. now apply N.eqb_neq.
Qed.

Lemma split_char_fragment (sep : char) (s : str) (c : char) :
  In c s -> c <> sep -> exists f, In f (split sep s) /\ In c f.
Proof.
  intros H1 H2.
  assert (H : In c (List.concat (split sep s))).
  { rewrite split_concat. apply filter_In. split; [exact H1|].
    apply negb_true_iff. now apply N.eqb_neq. }
  apply in_concat in H. destruct H as [f [Hf Hc]]. now exists f.
Qed.

(** Every fragment is a piece of the text. *)
Lemma split_go_infix (sep : char) (s cur f : str) :
  In f (split_go sep cur s) -> exists a b, rev cur ++ s = a ++ f ++ b.
Proof.
  revert cur; induction s as [|c s IH]; intros cur; simpl.
  - intros [<- | []]. exists [], []. now rewrite !app_nil_r.
  - destruct (c =? sep)%N.
    + intros [<- | H].
      * exists [], (c :: s). reflexivity.
      * destruct (IH [] H) as [a [b E]]. simpl in E.
        exists (rev cur ++ c :: a), b. rewrite E.
        now rewrite <- app_assoc.
    + intros H. destruct (IH (c :: cur) H) as [a [b E]].
      exists a, b. rewrite <- E. simpl. now rewrite <- app_assoc.
Qed.

Lemma split_infix (sep : char) (s f : str) :
  In f (split sep s) -> exists a b, s = a ++ f ++ b.
Proof. intros H. exact (split_go_infix sep s [] f H). Qed.

(** ** [terminate] *)

Lemma terminate_In (frags : list str) (st : str) :
  In st (terminate frags) <->
  exists f, In f frags /\ strip f <> [] /\ st = strip f ++ [semicolon].
Proof.
  induction frags as [|f frags IH]; simpl.
  - split; [intros [] | intros [f [[] _]]].
  - destruct (strip f) as [|c t] eqn:E.
    + rewrite IH. split.
      * intros [g [H1 H2]]. exists g. split; [now right | exact H2].
      * intros [g [[<- | H1] [H2 H3]]]; [congruence|].
        exists g. now split.
    + simpl. rewrite IH. split.
      * intros [<- | [g [H1 H2]]].
        -- exists f. rewrite E. repeat split; [now left | discriminate].
        -- exists g. split; [now right | exact H2].
      * intros [g [[<- | H1] [H2 H3]]].
        -- left. now rewrite H3, E.
        -- right. exists g. now split.
Qed.

Lemma terminate_nonempty (frags : list str) :
  terminate frags <> [] <-> exists f, In f frags /\ strip f <> [].
Proof.
  split.
  - intros H. destruct (terminate frags) as [|st l] eqn:E; [congruence|].
    assert (Hin : In st (terminate frags)) by (rewrite E; now left).
    apply terminate_In in Hin. destruct Hin as [f [H1 [H2 _]]]. now exists f.
  - intros [f [H1 H2]] E.
    assert (Hin : In (strip f ++ [semicolon]) (terminate frags)).
    { apply terminate_In. now exists f. }
    now rewrite E in Hin.
Qed.

Lemma statement_shape (sql st : str) :
  In st (split_statements sql) ->
  exists t, st = t ++ [semicolon] /\ body t
            /\ exists a b, sql = a ++ t ++ b.
Proof.
  unfold split_statements. intros H.
  apply terminate_In in H. destruct H as [f [Hf [Hne ->]]].
  exists (strip f). split; [reflexivity|]. split.
  - split; [exact Hne|]. split; [apply strip_trimmed|].
    intros Hin. apply strip_subset in Hin.
    destruct (split_fragment_chars _ _ _ _ Hf Hin) as [_ Habs]. congruence.
  - destruct (split_infix _ _ _ Hf) as [a [b ->]].
    destruct (strip_infix f) as [u [v Hs]].
    exists (a ++ u), (v ++ b). rewrite Hs at 1.
    now rewrite <- !app_assoc.
Qed.

(** A statement is already trimmed. *)
Lemma strip_statement (t : str) :
  body t -> strip (t ++ [semicolon]) = t ++ [semicolon].
Proof.
  intros [Hne [Htr _]]. destruct t as [|c t]; [congruence|].
  simpl. apply strip_fixed; [|reflexivity].
  exact (trimmed_head _ _ _ Htr eq_refl).
Qed.

Lemma split_statements_nonempty (sql : str) :
  split_statements sql <> [] <->
  exists c, In c sql /\ c <> semicolon /\ is_space c = false.
Proof.
  unfold split_statements. rewrite terminate_nonempty. split.
  - intros [f [Hf Hs]]. apply strip_nonempty_char in Hs.
    destruct Hs as [c [Hc Hsp]].
    destruct (split_fragment_chars _ _ _ _ Hf Hc) as [H1 H2].
    now exists c.
  - intros [c [H1 [H2 H3]]].
    destruct (split_char_fragment _ _ _ H1 H2) as [f [Hf Hc]].
    exists f. split; [exact Hf|]. apply strip_nonempty_char. now exists c.
Qed.

Lemma endswith_snoc (t : str) (c : char) : endswith [c] (t ++ [c]) = true.
Proof.
  unfold endswith. rewrite rev_app_distr. simpl. now rewrite N.eqb_refl.
Qed.

End SplitFacts.

(* ================================================================== *)
(** * Facts about [replace] and about the fence markers *)
(* ================================================================== *)

Module ReplaceFacts.
Import StrFacts.

Lemma replace_go_skip (old new : str) (k : nat) (s : str) :
  replace_go old new k s = replace_go old new 0 (skipn k s).
Proof.
  revert k; induction s as [|c s IH]; intros k.
  - now destruct k.
  - destruct k as [|k]; [reflexivity|]. simpl. apply IH.
Qed.

(** The equations of [s.replace(old, new)] for a non-empty [old]. *)
Lemma replace_nil (o : char) (old new : str) :
  replace (o :: old) new [] = [].
Proof. reflexivity. Qed.

Lemma replace_hit (o : char) (old new s : str) :
  startswith (o :: old) s = true ->
  replace (o :: old) new s
  = new ++ replace (o :: old) new (skipn (List.length (o :: old)) s).
Proof.
  intros H. destruct s as [|c s]; [discriminate|].
  unfold replace. cbn [replace_go]. rewrite H.
  rewrite replace_go_skip. simpl. now rewrite Nat.sub_0_r.
Qed.

Lemma replace_miss (o : char) (old new : str) (c : char) (s : str) :
  startswith (o :: old) (c :: s) = false ->
  replace (o :: old) new (c :: s) = c :: replace (o :: old) new s.
Proof. intros H. unfold replace. cbn [replace_go]. now rewrite H. Qed.

(** Doubling one character: what the escaping of quotes amounts to. *)
Lemma replace_char (x : char) (new s : str) :
  replace [x] new s
  = flat_map (fun c => if (c =? x)%N then new else [c]) s.
Proof.
  induction s as [|c s IH]; [reflexivity|].
  simpl flat_map. destruct (c =? x)%N eqn:E.
  - rewrite replace_hit.
    + cbn [List.length skipn]. now rewrite IH.
    + cbn [startswith]. now rewrite N.eqb_sym, E.
  - rewrite replace_miss.
    + now rewrite IH.
    + cbn [startswith]. now rewrite N.eqb_sym, E.
Qed.

(** ** Removing the bare fence leaves no bare fence behind *)

Lemma fence_unfold : fence = [backtick; backtick; backtick].
Proof. reflexivity. Qed.

Lemma startswith_cons_ne (x c : char) (p s : str) :
  x <> c -> startswith (x :: p) (c :: s) = false.
Proof.
  intros H. cbn [startswith]. apply N.eqb_neq in H. now rewrite H.
Qed.

Lemma startswith_cons_eq (x : char) (p s : str) :
  startswith (x :: p) (x :: s) = startswith p s.
Proof. cbn [startswith]. now rewrite N.eqb_refl. Qed.

Lemma two_ticks_kept (s : str) :
  startswith [backtick; backtick] s = false ->
  startswith [backtick; backtick] (replace fence [] s) = false.
Proof.
  rewrite fence_unfold. intros H.
  destruct s as [|x s]; [reflexivity|].
  destruct (N.eq_dec backtick x) as [<-|Hx].
  - destruct s as [|y s]; [reflexivity|].
    destruct (N.eq_dec backtick y) as [<-|Hy].
    + rewrite !startswith_cons_eq in H. discriminate.
    + rewrite replace_miss
        by (rewrite startswith_cons_eq; now apply startswith_cons_ne).
      rewrite replace_miss by (now apply startswith_cons_ne).
      rewrite startswith_cons_eq. now apply startswith_cons_ne.
  - rewrite replace_miss by (now apply startswith_cons_ne).
    now apply startswith_cons_ne.
Qed.

Lemma no_fence_after_replace_len (n : nat) (s : str) :
  List.length s <= n -> contains fence (replace fence [] s) = false.
Proof.
  revert s; induction n as [|n IH]; intros s Hlen.
  - destruct s; [reflexivity | simpl in Hlen; lia].
  - destruct s as [|c s]; [reflexivity|].
    destruct (startswith fence (c :: s)) eqn:E.
    + rewrite fence_unfold in E. rewrite fence_unfold at 2.
      rewrite (replace_hit _ _ _ _ E). rewrite <- fence_unfold.
      rewrite app_nil_l. apply IH.
      change (List.length fence) with 3.
      pose proof (length_skipn 3 (c :: s)) as L.
      cbn [List.length] in *. lia.
    + rewrite fence_unfold in E. rewrite fence_unfold at 2.
      rewrite (replace_miss _ _ _ _ _ E). rewrite <- fence_unfold.
      cbn [contains]. rewrite IH by (simpl in Hlen; lia).
      rewrite orb_false_r. rewrite fence_unfold at 1.
      destruct (N.eq_dec backtick c) as [<-|Hc].
      * rewrite startswith_cons_eq. apply two_ticks_kept.
        now rewrite startswith_cons_eq in E.
      * now apply startswith_cons_ne.
Qed.

Lemma no_fence_after_replace (s : str) :
  contains fence (replace fence [] s) = false.
Proof. exact (no_fence_after_replace_len (List.length s) s (le_n _)). Qed.

Lemma not_contains_strip (p s : str) :
  contains p s = false -> contains p (strip s) = false.
Proof.
  intros H. destruct (contains p (strip s)) eqn:E; [|reflexivity].
  destruct (strip_infix s) as [a [b Hs]].
  apply (contains_infix p a _ b) in E. rewrite <- Hs in E. congruence.
Qed.

Lemma not_contains_infix (p a t b : str) :
  contains p (a ++ t ++ b) = false -> contains p t = false.
Proof.
  intros H. destruct (contains p t) eqn:E; [|reflexivity].
  apply (contains_infix p a _ b) in E. congruence.
Qed.

(** A text that starts with the tagged fence contains the bare one. *)
Lemma fence_sql_contains_fence (s : str) :
  startswith fence_sql s = true -> contains fence s = true.
Proof.
  intros H. apply startswith_spec in H. destruct H as [q ->].
  apply contains_spec. exists [], (lit "sql" ++ q). reflexivity.
Qed.

Lemma clean_tagged (raw : str) :
  startswith fence_sql (strip raw) = true ->
  clean raw = strip (replace fence [] (replace fence_sql [] (strip raw))).
Proof. intros H. unfold clean. now rewrite H. Qed.

Lemma clean_untagged (raw : str) :
  startswith fence_sql (strip raw) = false -> clean raw = strip raw.
Proof. intros H. unfold clean. now rewrite H. Qed.

Lemma clean_tagged_no_fence (raw : str) :
  startswith fence_sql (strip raw) = true ->
  contains fence (clean raw) = false.
Proof.
  intros H. rewrite (clean_tagged _ H).
  apply not_contains_strip, no_fence_after_replace.
Qed.

Lemma clean_trimmed (raw : str) : trimmed (clean raw).
Proof.
  unfold clean. destruct (startswith fence_sql (strip raw));
    apply strip_trimmed.
Qed.

End ReplaceFacts.

(* ================================================================== *)
(** * Sanitizing twice *)
(* ================================================================== *)

Module SanitizeFacts.
Import StrFacts SplitFacts ReplaceFacts.

Lemma statements_are_closed_bodies (sql : str) :
  exists ts, split_statements sql = List.map close ts /\ Forall body ts
             /\ Forall (fun t => exists a b, sql = a ++ t ++ b) ts.
Proof.
  pose proof (statement_shape sql) as H.
  induction (split_statements sql) as [|st l IH].
  - exists []. repeat split; constructor.
  - destruct (H st (or_introl eq_refl)) as [t [-> [Hb Hi]]].
    destruct IH as [ts [-> [Hbs His]]].
    { intros st' Hin. apply H. now right. }
    exists (t :: ts). repeat split; now constructor.
Qed.

Lemma terminate_body (t : str) (rest : list str) :
  body t -> terminate (t :: rest) = close t :: terminate rest.
Proof.
  intros [Hne [Htr _]]. cbn [terminate]. rewrite (trimmed_strip _ Htr).
  destruct t; [congruence | reflexivity].
Qed.

Lemma terminate_blank (rest : list str) :
  terminate ([] :: rest) = terminate rest.
Proof. reflexivity. Qed.

Lemma join_cons2 (sep a b : str) (l : list str) :
  join sep (a :: b :: l) = a ++ sep ++ join sep (b :: l).
Proof. reflexivity. Qed.

Lemma join_nil_concat (l : list str) : join [] l = List.concat l.
Proof.
  induction l as [|a l IH]; [reflexivity|].
  destruct l as [|b l].
  - simpl. now rewrite app_nil_r.
  - rewrite join_cons2, IH. reflexivity.
Qed.

Lemma terminate_split_seps (sep s : str) :
  Forall (eq semicolon) sep ->
  terminate (split semicolon (sep ++ s)) = terminate (split semicolon s).
Proof.
  intros H. induction sep as [|c rest IH]; [reflexivity|].
  inversion H as [|? ? Hc Hrest]; subst.
  change ((semicolon :: rest) ++ s) with ([] ++ semicolon :: (rest ++ s)).
  rewrite (split_at_sep semicolon [] _ (fun F => F)).
  rewrite terminate_blank. now apply IH.
Qed.

(** ** Re-serializing with a separator made of terminators

    The statements already carry their terminator, so the separator may be
    [;] (joining with terminators) or empty (plain concatenation): extra
    terminators only add blank fragments. *)
Section Reserialize.

Variable sep : str.
Hypothesis sep_terminators : Forall (eq semicolon) sep.

(** Splitting a re-serialized statement set gives the set back. *)
Lemma split_statements_join (ts : list str) :
  Forall body ts ->
  split_statements (join sep (List.map close ts)) = List.map close ts.
Proof.
  unfold split_statements.
  induction ts as [|t ts IH]; intros H; [reflexivity|].
  inversion H as [|? ? Hb Hbs]; subst.
  assert (Hsep : ~ In semicolon t) by (apply Hb).
  destruct ts as [|u ts].
  - cbn [List.map join]. unfold close at 1.
    change (t ++ [semicolon]) with (t ++ semicolon :: []).
    rewrite (split_at_sep _ _ _ Hsep). unfold split. cbn [split_go rev].
    rewrite (terminate_body _ _ Hb). reflexivity.
  - cbn [List.map] in IH |- *. rewrite join_cons2. unfold close at 1.
    rewrite <- app_assoc. cbn [app].
    rewrite (split_at_sep _ _ _ Hsep).
    rewrite (terminate_body _ _ Hb).
    rewrite (terminate_split_seps _ _ sep_terminators).
    now rewrite (IH Hbs).
Qed.

Lemma join_close_snoc (ts : list str) :
  ts <> [] -> exists m, join sep (List.map close ts) = m ++ [semicolon].
Proof.
  induction ts as [|t ts IH]; [congruence|]. intros _.
  destruct ts as [|u ts].
  - exists t. reflexivity.
  - destruct IH as [m Hm]; [discriminate|].
    cbn [List.map] in *. rewrite join_cons2, Hm.
    exists (close t ++ sep ++ m). now rewrite <- !app_assoc.
Qed.

Lemma join_close_head (t : str) (ts : list str) :
  exists r, join sep (List.map close (t :: ts)) = t ++ semicolon :: r.
Proof.
  destruct ts as [|u ts].
  - exists []. reflexivity.
  - cbn [List.map]. rewrite join_cons2. unfold close at 1.
    rewrite <- app_assoc. eexists. reflexivity.
Qed.

(** A re-serialized statement set is already trimmed. *)
Lemma strip_join (ts : list str) :
  Forall body ts ->
  strip (join sep (List.map close ts)) = join sep (List.map close ts).
Proof.
  intros H. destruct ts as [|t ts]; [reflexivity|].
  inversion H as [|? ? Hb _]; subst.
  apply trimmed_strip. split.
  - destruct (join_close_head t ts) as [r ->].
    destruct Hb as [Hne [Htr _]]. destruct t as [|c t]; [congruence|].
    apply lstrip_nonspace. exact (trimmed_head _ _ _ Htr eq_refl).
  - destruct (join_close_snoc (t :: ts)) as [m ->]; [discriminate|].
    now apply rstrip_snoc.
Qed.

Lemma join_roundtrip (ts : list str) :
  Forall body ts ->
  startswith fence_sql (join sep (List.map close ts)) = false ->
  sanitize (join sep (List.map close ts)) = List.map close ts.
Proof.
  intros Hb Hf. unfold sanitize. rewrite clean_untagged.
  - rewrite (strip_join _ Hb). now apply split_statements_join.
  - now rewrite (strip_join _ Hb).
Qed.

(** A text that opens with the tagged fence and whose first terminator
    closes [t] has the bare fence inside [t]. *)
Lemma fence_in_first_body (t r : str) :
  startswith fence_sql (t ++ semicolon :: r) = true ->
  contains fence t = true.
Proof.
  intros E. unfold fence_sql, lit in E.
  destruct t as [|c1 [|c2 [|c3 t]]];
    try (cbn in E;
         repeat (apply andb_true_iff in E; destruct E as [_ E]);
         discriminate E).
  assert (F : startswith fence (c1 :: c2 :: c3 :: t) = true).
  { unfold fence, lit. cbn in E |- *. rewrite !andb_true_iff in E.
    destruct E as [-> [-> [-> _]]]. reflexivity. }
  cbn [contains]. now rewrite F.
Qed.

(** After a tagged fence was stripped, the first statement cannot open
    with a fence again. *)
Lemma tagged_not_refenced (x : str) :
  startswith fence_sql (strip x) = true ->
  startswith fence_sql (join sep (sanitize x)) = false.
Proof.
  intros H. pose proof (clean_tagged_no_fence _ H) as Hno.
  unfold sanitize.
  destruct (statements_are_closed_bodies (clean x)) as [ts [-> [_ Hin]]].
  destruct ts as [|t ts]; [reflexivity|].
  inversion Hin as [|? ? Hex _]; subst. destruct Hex as [a [b Ht]].
  rewrite Ht in Hno. apply not_contains_infix in Hno.
  destruct (join_close_head t ts) as [r ->].
  destruct (startswith fence_sql (t ++ semicolon :: r)) eqn:E; [|reflexivity].
  apply fence_in_first_body in E. congruence.
Qed.

(** A re-serialized statement set that opens with the tagged fence is not
    what sanitizing it gives back. *)
Lemma refenced_roundtrip_differs (ts : list str) :
  Forall body ts ->
  startswith fence_sql (join sep (List.map close ts)) = true ->
  sanitize (join sep (List.map close ts)) <> List.map close ts.
Proof.
  intros Hb Hf Heq.
  destruct ts as [|t ts]; [discriminate Hf|].
  assert (Hin : In (close t)
                  (sanitize (join sep (List.map close (t :: ts))))).
  { rewrite Heq. now left. }
  assert (Hno : contains fence (clean (join sep (List.map close (t :: ts))))
                = false).
  { apply clean_tagged_no_fence. now rewrite (strip_join _ Hb). }
  destruct (statement_shape _ _ Hin) as [t' [Et [_ [a [b Hi]]]]].
  unfold close in Et. apply app_inj_tail in Et. destruct Et as [<- _].
  rewrite Hi in Hno. apply not_contains_infix in Hno.
  destruct (join_close_head t ts) as [r Hr]. rewrite Hr in Hf.
  apply fence_in_first_body in Hf. congruence.
Qed.

(** Sanitizing twice, for any such separator. *)
Lemma sanitize_twice (x : str) :
  sanitize (join sep (sanitize x)) = sanitize x
  <-> startswith fence_sql (join sep (sanitize x)) = false.
Proof.
  unfold sanitize at 2 3 4.
  destruct (statements_are_closed_bodies (clean x)) as [ts [-> [Hb _]]].
  split.
  - intros Heq.
    destruct (startswith fence_sql (join sep (List.map close ts))) eqn:E;
      [|reflexivity].
    exfalso. exact (refenced_roundtrip_differs ts Hb E Heq).
  - intros H. now apply join_roundtrip.
Qed.

End Reserialize.

Lemma terminator_sep : Forall (eq semicolon) [semicolon].
Proof. now constructor. Qed.

Lemma last_cases (l : str) : l = [] \/ exists l' d, l = l' ++ [d].
Proof.
  induction l as [|x l _] using rev_ind; [now left|].
  right. now exists l, x.
Qed.

Lemma contains_snoc (p t : str) (c : char) :
  p <> [] -> ~ In c p -> contains p (t ++ [c]) = contains p t.
Proof.
  intros Hp Hc. destruct (contains p t) eqn:E.
  - apply contains_spec in E. destruct E as [a [b ->]].
    apply contains_spec. exists a, (b ++ [c]). now rewrite <- !app_assoc.
  - destruct (contains p (t ++ [c])) eqn:E'; [|reflexivity].
    apply contains_spec in E'. destruct E' as [a [b H]].
    destruct (last_cases b) as [-> | [b' [d ->]]].
    + rewrite app_nil_r in H.
      destruct (last_cases p) as [-> | [p' [d ->]]]; [congruence|].
      rewrite app_assoc in H. apply app_inj_tail in H. destruct H as [_ <-].
      exfalso. apply Hc. apply in_or_app. right. now left.
    + rewrite !app_assoc in H. apply app_inj_tail in H.
      destruct H as [-> _].
      assert (X : contains p ((a ++ p) ++ b') = true).
      { apply contains_spec. exists a, b'. now rewrite <- app_assoc. }
      congruence.
Qed.

End SanitizeFacts.

(* ================================================================== *)
(** * The sanitizer: statement sets, fences, idempotence *)
(* ================================================================== *)

Module Sanitizer.
Import StrFacts SplitFacts ReplaceFacts SanitizeFacts Toy.

(** C3, as the code has it: for every raw generation output, each
    statement the sanitizer produces is, once trimmed, non-empty and ends
    with the terminator [;]; and the sequence of statements is non-empty
    exactly when the cleaned text holds a character that is neither white
    space nor [;]. *)
Theorem sanitize_statements_wellformed (raw : str) :
  Forall (fun st => strip st <> []
                    /\ endswith [semicolon] (strip st) = true)
         (sanitize raw)
  /\ (sanitize raw <> [] <->
      exists c, In c (clean raw) /\ c <> semicolon /\ is_space c = false).
Proof.
  split.
  - apply Forall_forall. intros st Hin.
    destruct (statement_shape _ _ Hin) as [t [-> [Hb _]]].
    rewrite (strip_statement _ Hb). split.
    + intros E. now apply app_eq_nil in E as [_ E].
    + apply endswith_snoc.
  - apply split_statements_nonempty.
Qed.

(** C3 as stated fails: the output [";"] is non-empty and contains a
    terminator, yet no statement comes out of it. *)
Lemma sanitize_lone_terminator :
  lit ";" <> [] /\ In semicolon (lit ";") /\ sanitize (lit ";") = [].
Proof.
  split; [discriminate|]. split; [now left | reflexivity].
Qed.

(** C4, as the code has it: when the trimmed output opens with the fence
    tagged [sql], no fence marker is left in the cleaned text nor in any
    statement; and the tagged example of the spec yields exactly the one
    statement [SELECT 1;]. *)
Theorem tagged_fence_stripped :
  (forall raw : str,
      startswith fence_sql (strip raw) = true ->
      contains fence (clean raw) = false
      /\ Forall (fun st => contains fence st = false) (sanitize raw))
  /\ sanitize (fenced_select (lit "sql")) = [lit "SELECT 1;"].
Proof.
  split; [|reflexivity].
  intros raw H. pose proof (clean_tagged_no_fence _ H) as Hno.
  split; [exact Hno|].
  apply Forall_forall. intros st Hin.
  destruct (statement_shape _ _ Hin) as [t [-> [_ [a [b Ht]]]]].
  rewrite contains_snoc.
  - rewrite Ht in Hno. exact (not_contains_infix _ _ _ _ Hno).
  - discriminate.
  - cbv. intros [F | [F | [F | []]]]; discriminate F.
Qed.

Lemma tagged_fence_stripped_witness :
  contains fence (clean (fenced_select (lit "sql"))) = false
  /\ Forall (fun st => contains fence st = false)
            (sanitize (fenced_select (lit "sql"))).
Proof.
  apply (proj1 tagged_fence_stripped (fenced_select (lit "sql"))).
  reflexivity.
Defined.

(** C4 as stated fails on the bare fence: its markers stay in the text
    and end up inside the statements. *)
Lemma untagged_fence_kept :
  contains fence (clean (fenced_select [])) = true
  /\ sanitize (fenced_select [])
     = [lit "```" ++ nl ++ lit "SELECT 1;"; lit "```;"].
Proof. split; reflexivity. Qed.

(** C5, as the code has it: sanitizing the re-serialized statement set
    gives the same statement set exactly when the re-serialized text does
    not itself open with the tagged fence. *)
Theorem sanitize_idempotent (x : str) :
  sanitize (sanitize_text (sanitize x)) = sanitize x
  <-> startswith fence_sql (sanitize_text (sanitize x)) = false.
Proof.
  unfold sanitize_text, sanitize at 2 3 4.
  destruct (statements_are_closed_bodies (clean x)) as [ts [-> [Hb _]]].
  split.
  - intros Heq.
    destruct (startswith fence_sql (join [semicolon] (List.map close ts)))
      eqn:E; [|reflexivity].
    exfalso.
    exact (refenced_roundtrip_differs [semicolon] ts Hb E Heq).
  - intros H. now apply (join_roundtrip [semicolon] terminator_sep).
Qed.

Lemma sanitize_idempotent_witness :
  sanitize (sanitize_text (sanitize (lit "INSERT INTO t VALUES (1); INSERT INTO t VALUES (2);")))
  = sanitize (lit "INSERT INTO t VALUES (1); INSERT INTO t VALUES (2);").
Proof.
  apply (proj2 (sanitize_idempotent
                  (lit "INSERT INTO t VALUES (1); INSERT INTO t VALUES (2);"))).
  reflexivity.
Defined.

(** C5 as stated fails: a tagged fence that only the first pass brings to
    the front is stripped by the second pass. *)
Lemma sanitize_not_idempotent :
  sanitize (lit ";```sql") = [lit "```sql;"]
  /\ sanitize (sanitize_text (sanitize (lit ";```sql"))) = []
  /\ sanitize (sanitize_text (sanitize (lit ";```sql")))
     <> sanitize (lit ";```sql").
Proof. repeat split; try reflexivity. discriminate. Qed.

(** Inputs that open with the tagged fence always sanitize to a fixed
    point. *)
Corollary sanitize_fixed_point_tagged (x : str) :
  startswith fence_sql (strip x) = true ->
  sanitize (sanitize_text (sanitize x)) = sanitize x.
Proof.
  intros H. apply (sanitize_twice [semicolon] terminator_sep).
  now apply tagged_not_refenced.
Qed.

(** The same holds when the statements, which carry their terminator
    already, are simply put one after the other. *)
Corollary sanitize_concat (x : str) :
  sanitize (List.concat (sanitize x)) = sanitize x
  <-> startswith fence_sql (List.concat (sanitize x)) = false.
Proof.
  rewrite <- join_nil_concat. apply (sanitize_twice []). constructor.
Qed.

End Sanitizer.

(* ================================================================== *)
(** * CSV ingestion: column types and INSERT literals *)
(* ================================================================== *)

Module Ingest.
Import StrFacts ReplaceFacts Toy.

Lemma fold_max_spec (l : list nat) (x : nat) :
  x <= fold_left Nat.max l x
  /\ (forall y, In y l -> y <= fold_left Nat.max l x)
  /\ (fold_left Nat.max l x = x \/ In (fold_left Nat.max l x) l).
Proof.
  revert x; induction l as [|a l IH]; intros x; simpl.
  - split; [lia|]. split; [intros y [] | now left].
  - destruct (IH (Nat.max x a)) as [H1 [H2 H3]]. repeat split.
    + lia.
    + intros y [<- | Hy]; [lia | now apply H2].
    + destruct H3 as [H3 | H3]; [|now right; right].
      destruct (Nat.max_spec x a) as [[_ E] | [_ E]].
      * right. left. congruence.
      * left. congruence.
Qed.

Lemma max_default_spec (l : list nat) (d : nat) :
  (l = [] /\ max_default l d = d)
  \/ (In (max_default l d) l /\ forall y, In y l -> y <= max_default l d).
Proof.
  destruct l as [|x l]; [now left|]. right. simpl.
  destruct (fold_max_spec l x) as [H1 [H2 H3]]. split.
  - destruct H3 as [-> | H3]; [now left | now right].
  - intros y [<- | Hy]; [exact H1 | now apply H2].
Qed.

Lemma sample_lengths_In (samples : list value) (m : nat) :
  In m (sample_lengths samples) <->
  exists v, In v samples /\ notna v = true
            /\ List.length (str_value v) = m.
Proof.
  unfold sample_lengths. rewrite in_map_iff. split.
  - intros [v [E Hv]]. apply filter_In in Hv. exists v. tauto.
  - intros [v [H1 [H2 E]]]. exists v. split; [exact E|].
    apply filter_In. tauto.
Qed.

Lemma max_default_observed (samples : list value) :
  max_observed_length samples (max_default (sample_lengths samples) 255).
Proof.
  destruct (max_default_spec (sample_lengths samples) 255)
    as [[E ->] | [Hin Hmax]].
  - left. split; [|reflexivity]. intros v Hv.
    destruct (notna v) eqn:N; [|reflexivity].
    assert (X : In (List.length (str_value v)) (sample_lengths samples)).
    { apply sample_lengths_In. now exists v. }
    rewrite E in X. destruct X.
  - right. split.
    + now apply sample_lengths_In.
    + intros v Hv N. apply Hmax, sample_lengths_In. now exists v.
Qed.

(** C6: an integer dtype gives the INTEGER type (spelt [INT] in the
    DDL), a float dtype FLOAT, a boolean dtype BOOLEAN, a datetime dtype
    DATETIME; every other dtype gives VARCHAR of size
    min(2 * max_observed_length, 500), the length being taken over the
    non-null samples and 255 when there is none.  The function is total:
    it never raises. *)
Theorem infer_sql_type_spec (d : dtype) (samples : list value) :
  (is_integer_dtype d = true -> infer_sql_type d samples = lit "INT")
  /\ (is_float_dtype d = true -> infer_sql_type d samples = lit "FLOAT")
  /\ (is_bool_dtype d = true -> infer_sql_type d samples = lit "BOOLEAN")
  /\ (is_datetime64_any_dtype d = true ->
      infer_sql_type d samples = lit "DATETIME")
  /\ (is_integer_dtype d = false -> is_float_dtype d = false ->
      is_bool_dtype d = false -> is_datetime64_any_dtype d = false ->
      exists m, max_observed_length samples m
                /\ infer_sql_type d samples
                   = lit "VARCHAR(" ++ str_of_nat (Nat.min (2 * m) 500)
                     ++ lit ")").
Proof.
  do 4 (split; [intros H; destruct d; try discriminate H; reflexivity|]).
  intros H1 H2 H3 H4.
  exists (max_default (sample_lengths samples) 255).
  split; [apply max_default_observed|].
  unfold infer_sql_type. rewrite H1, H2, H3, H4.
  cbv zeta. now rewrite (Nat.mul_comm _ 2).
Qed.

Lemma infer_sql_type_spec_witness :
  infer_sql_type int64 [VInt 1; VInt 2] = lit "INT"
  /\ infer_sql_type float64 [VOther (lit "1.5"); VNull] = lit "FLOAT"
  /\ infer_sql_type bool_ [VBool true] = lit "BOOLEAN"
  /\ infer_sql_type datetime64 [] = lit "DATETIME"
  /\ exists m, max_observed_length [VStr (lit "Alice"); VNull] m
               /\ infer_sql_type object_ [VStr (lit "Alice"); VNull]
                  = lit "VARCHAR(" ++ str_of_nat (Nat.min (2 * m) 500)
                    ++ lit ")".
Proof.
  split; [apply (infer_sql_type_spec int64 [VInt 1; VInt 2]); reflexivity|].
  split; [apply (infer_sql_type_spec float64 [VOther (lit "1.5"); VNull]);
          reflexivity|].
  split; [apply (infer_sql_type_spec bool_ [VBool true]); reflexivity|].
  split; [apply (infer_sql_type_spec datetime64 []); reflexivity|].
  apply (infer_sql_type_spec object_ [VStr (lit "Alice"); VNull]);
    reflexivity.
Defined.

(** Sizes on concrete samples: twice the longest sample, 500 at most, and
    500 when every sample is null. *)
Example infer_sql_type_sizes :
  infer_sql_type object_ [VStr (lit "Alice"); VNull; VStr (lit "Bo")]
  = lit "VARCHAR(10)"
  /\ infer_sql_type object_ [VNull; VNull] = lit "VARCHAR(500)"
  /\ infer_sql_type object_ [VStr (repeat 120%N 300)] = lit "VARCHAR(500)".
Proof. repeat split; vm_compute; reflexivity. Qed.

(** C8: in the INSERT statements built by CSV ingestion a string value is
    put between single quotes with every single quote inside it doubled
    (O'Brien becomes 'O''Brien'), a null value becomes the bare NULL, and
    every other value is rendered by its [str()] text. *)
Theorem render_value_escaping :
  (forall s : str,
      render_value (VStr s)
      = [squote] ++ flat_map double_quote s ++ [squote])
  /\ render_value (VStr (lit "O'Brien")) = lit "'O''Brien'"
  /\ render_value VNull = lit "NULL"
  /\ (forall z, render_value (VInt z) = str_of_Z z)
  /\ (forall b, render_value (VBool b) = str_value (VBool b))
  /\ (forall text, render_value (VOther text) = text)
  /\ (forall table row,
         insert_stmt table row
         = lit "INSERT INTO " ++ table ++ lit " VALUES ("
           ++ join (lit ", ") (List.map render_value row) ++ lit ");")
  /\ insert_stmt (lit "people") [VStr (lit "O'Brien"); VNull; VInt 7]
     = lit "INSERT INTO people VALUES ('O''Brien', NULL, 7);".
Proof.
  repeat split.
  intros s. unfold render_value. cbn [isna isinstance_str str_value].
  change (lit "'") with [squote]. change (lit "''") with [squote; squote].
  now rewrite replace_char.
Qed.

Lemma head_column_values (df1 df2 : DataFrame) (i : nat) :
  firstn 5 (df_rows df1) = firstn 5 (df_rows df2) ->
  head (column_values df1 i) = head (column_values df2 i).
Proof.
  intros H. unfold head, column_values. now rewrite !firstn_map, H.
Qed.

Lemma column_defs_first_five (df1 df2 : DataFrame)
  (cols : list (str * dtype)) (i : nat) :
  firstn 5 (df_rows df1) = firstn 5 (df_rows df2) ->
  column_defs df1 i cols = column_defs df2 i cols.
Proof.
  intros H. revert i; induction cols as [|[col d] cols IH]; intros i.
  - reflexivity.
  - cbn [column_defs]. now rewrite IH, (head_column_values df1 df2 i H).
Qed.

(** C10: the type of a column is inferred from its first five values
    only, so two tables with the same header that agree on their first
    five rows get the same CREATE TABLE statement, whatever the later rows
    hold. *)
Theorem create_stmt_first_five (df1 df2 : DataFrame) (table_name : str) :
  df_columns df1 = df_columns df2 ->
  firstn 5 (df_rows df1) = firstn 5 (df_rows df2) ->
  create_stmt df1 table_name = create_stmt df2 table_name.
Proof.
  intros Hc Hr. unfold create_stmt.
  now rewrite Hc, (column_defs_first_five df1 df2 _ 0 Hr).
Qed.

Lemma create_stmt_first_five_witness :
  create_stmt (short_then_long (lit "f")) (lit "notes")
  = create_stmt (short_then_long (repeat 120%N 400)) (lit "notes").
Proof.
  apply (create_stmt_first_five (short_then_long (lit "f"))
           (short_then_long (repeat 120%N 400)) (lit "notes"));
    reflexivity.
Defined.

(** The declared width on the toy table: the sixth value, 400 characters
    long, leaves it at twice the two characters of the second row. *)
Example create_stmt_ignores_sixth_row :
  create_stmt (short_then_long (repeat 120%N 400)) (lit "notes")
  = lit "CREATE TABLE notes (note VARCHAR(4));".
Proof. vm_compute. reflexivity. Qed.

End Ingest.

(* ================================================================== *)
(** * Facts about the calls to the outside world *)
(* ================================================================== *)

Module WorldFacts.
Import StrFacts.

(** Unfold the plumbing of the state passing, and nothing else. *)
Ltac step_world :=
  repeat (progress
            (unfold run_sql, get_table_schema, call_llm,
               get_mysql_connection, execute, bind, emit, peek, call, ret;
             cbn [fst snd ext log negb])).

Section Calls.

Context {St : Type} (sv : Services St).

Lemma grows_refl (w : World St) : grows w w.
Proof. exists []. now rewrite app_nil_r. Qed.

Lemma grows_trans (w1 w2 w3 : World St) :
  grows w1 w2 -> grows w2 w3 -> grows w1 w3.
Proof.
  intros [l1 H1] [l2 H2]. exists (l1 ++ l2).
  now rewrite H2, H1, app_assoc.
Qed.

(** ** [run_sql] *)

Lemma run_sql_unreachable (query : str) (fetch : bool) (w : World St) :
  mysql_connect sv (ext w) = false ->
  run_sql sv query fetch w
  = (message fetch (lit "Error: Could not connect to database"),
     {| ext := ext w; log := log w ++ [EvConnect] |}).
Proof.
  intros H. step_world. rewrite H. reflexivity.
Qed.

Lemma run_sql_log (query : str) (fetch : bool) (w : World St) :
  log (snd (run_sql sv query fetch w))
  = log w ++ EvConnect
      :: (if mysql_connect sv (ext w) then [EvExecute query] else []).
Proof.
  step_world. destruct (mysql_connect sv (ext w)); step_world;
    [|reflexivity].
  destruct (cursor_execute sv query (ext w)) as [[e | cursor] s'];
    step_world.
  - now rewrite <- app_assoc.
  - destruct fetch; [destruct (fetchall cursor) | destruct (commit cursor)];
      step_world; now rewrite <- app_assoc.
Qed.

Lemma run_sql_grows (query : str) (fetch : bool) (w : World St) :
  grows w (snd (run_sql sv query fetch w)).
Proof. eexists. apply run_sql_log. Qed.

(** Every message that [run_sql] hands back to a fetching caller is an
    error message. *)
Lemma run_sql_fetch_message (query : str) (w : World St) (text : str) :
  fst (run_sql sv query true w) = inl text ->
  contains (lit "Error") text = true.
Proof.
  step_world. destruct (mysql_connect sv (ext w)); step_world.
  - destruct (cursor_execute sv query (ext w)) as [[e | cursor] s'];
      step_world.
    + intros H. injection H as <-.
      apply contains_spec. exists [], (lit " executing query: " ++ e).
      reflexivity.
    + destruct (fetchall cursor) as [e | results]; step_world; intros H;
        [|discriminate].
      injection H as <-.
      apply contains_spec. exists [], (lit " executing query: " ++ e).
      reflexivity.
  - intros H. injection H as <-. reflexivity.
Qed.

(** ** [call_llm] *)

Lemma call_llm_eq (prompt : str) (temperature : Q) (w : World St) :
  call_llm sv prompt temperature w
  = (match fst (chat_completion sv default_model prompt temperature (ext w))
     with
     | inr content => strip content
     | inl e => lit "Error calling LLM: " ++ e
     end,
     {| ext := snd (chat_completion sv default_model prompt temperature
                      (ext w));
        log := log w ++ [EvComplete prompt temperature] |}).
Proof.
  step_world.
  destruct (chat_completion sv default_model prompt temperature (ext w))
    as [[e | content] s']; reflexivity.
Qed.

Lemma call_llm_grows (prompt : str) (temperature : Q) (w : World St) :
  grows w (snd (call_llm sv prompt temperature w)).
Proof. rewrite call_llm_eq. now exists [EvComplete prompt temperature]. Qed.

(** ** [get_table_schema] *)


(** ** The failure text of the backend goes through the clean-up as is *)

Lemma clean_failure_text (e : str) :
  clean (lit "Error calling LLM: " ++ e)
  = strip (lit "Error calling LLM: " ++ e).
Proof.
  apply ReplaceFacts.clean_untagged.
  destruct (strip_cases (lit "Error calling LLM: " ++ e))
    as [[H _] | [c [t [H [_ ->]]]]].
  - discriminate H.
  - cbn in H. injection H as <- _. reflexivity.
Qed.

(** ** The statement loop of [insert_rows_from_text] *)

Lemma run_statements_length (statements : list str) (w : World St) :
  List.length (fst (run_statements sv statements w))
  = List.length statements.
Proof.
  revert w; induction statements as [|stmt rest IH]; intros w.
  - reflexivity.
  - cbn [run_statements]. unfold bind.
    destruct (run_sql sv stmt false w) as [result w1].
    specialize (IH w1).
    destruct (run_statements sv rest w1) as [results w2].
    simpl in *. now rewrite IH.
Qed.

Lemma run_statements_log (statements : list str) (w : World St) :
  (forall s, mysql_connect sv s = true) ->
  log (snd (run_statements sv statements w))
  = log w ++ flat_map (fun q => [EvConnect; EvExecute q]) statements.
Proof.
  intros Hc. revert w; induction statements as [|stmt rest IH]; intros w.
  - simpl. now rewrite app_nil_r.
  - cbn [run_statements flat_map]. unfold bind.
    pose proof (run_sql_log stmt false w) as L.
    destruct (run_sql sv stmt false w) as [result w1].
    specialize (IH w1).
    destruct (run_statements sv rest w1) as [results w2].
    simpl in *. rewrite IH, L, Hc. now rewrite <- app_assoc.
Qed.

(** Each outcome is what [run_sql] answered for the statement at the same
    position, whatever the earlier statements did. *)
Lemma run_statements_outcomes (statements : list str) (w : World St) :
  Forall2 (fun stmt result =>
             exists wa, fst (run_sql sv stmt false wa) = result)
          statements (fst (run_statements sv statements w)).
Proof.
  revert w; induction statements as [|stmt rest IH]; intros w.
  - constructor.
  - cbn [run_statements]. unfold bind.
    destruct (run_sql sv stmt false w) as [result w1] eqn:E.
    specialize (IH w1).
    destruct (run_statements sv rest w1) as [results w2].
    simpl in *. constructor; [|exact IH].
    exists w. now rewrite E.
Qed.

(** The loop of [insert_rows_from_text], statement by statement: the
    world it ends in is the one the statements leave behind in turn, and
    the outcome at each position is the answer to the statement at that
    position in the world its predecessors left. *)
Lemma run_statements_threads (statements : list str) (w : World St) :
  snd (run_statements sv statements w) = world_after sv statements w
  /\ forall i stmt,
      nth_error statements i = Some stmt ->
      nth_error (fst (run_statements sv statements w)) i
      = Some (fst (run_sql sv stmt false
                     (world_after sv (firstn i statements) w))).
Proof.
  revert w; induction statements as [|s0 rest IH]; intros w.
  - split; [reflexivity|]. intros [|i] stmt H; discriminate H.
  - cbn [run_statements]. unfold bind.
    destruct (run_sql sv s0 false w) as [result w1] eqn:E.
    destruct (IH w1) as [IW IN].
    destruct (run_statements sv rest w1) as [results w2].
    unfold ret. cbn [fst snd] in *. split.
    + unfold world_after. cbn [fold_left]. rewrite E. exact IW.
    + intros [|i] stmt H.
      * injection H as <-. cbn [firstn nth_error]. unfold world_after.
        cbn [fold_left]. now rewrite E.
      * cbn [nth_error firstn] in *. rewrite (IN i stmt H).
        unfold world_after. cbn [fold_left]. now rewrite E.
Qed.

(** [create_table_from_text] and [query_handler] as one equation each. *)
Lemma create_table_from_text_eq (description : str) (w : World St) :
  create_table_from_text sv description w
  = (let p := prompt_create_table sv description w in
     let r := run_sql sv (clean (fst p)) false (snd p) in
     (lit "Generated SQL:" ++ nl ++ clean (fst p) ++ nl ++ nl
      ++ lit "Result: " ++ fst r, snd r)).
Proof.
  unfold create_table_from_text, bind, ret.
  destruct (prompt_create_table sv description w) as [sql w1].
  cbn [fst snd].
  destruct (run_sql sv (clean sql) false w1) as [result w2]. reflexivity.
Qed.

Lemma query_handler_eq (question table_name : str) (w : World St) :
  is_empty question = false ->
  is_empty table_name = false ->
  query_handler sv question table_name w
  = (let g := get_table_schema sv table_name w in
     let p := prompt_text_to_sql sv question (fst g) (snd g) in
     let r := run_sql sv (clean (fst p)) true (snd p) in
     match fst r with
     | inl text => (Return (text, clean (fst p), []), snd r)
     | inr res =>
         let x := prompt_explain_results sv question (clean (fst p))
                    (rows res) (snd r) in
         (Return (format_results sv res, clean (fst p), fst x), snd x)
     end).
Proof.
  intros Hq Ht. unfold query_handler. rewrite Hq, Ht. cbn [orb].
  unfold bind at 1.
  destruct (get_table_schema sv table_name w) as [schema w1].
  cbn [fst snd]. unfold bind at 1.
  destruct (prompt_text_to_sql sv question schema w1) as [sql w2].
  cbn [fst snd]. unfold bind at 1.
  destruct (run_sql sv (clean sql) true w2) as [[text | res] w3] eqn:R.
  - assert (C : contains (lit "Error") text = true).
    { apply (run_sql_fetch_message (clean sql) w2). now rewrite R. }
    cbn [fst snd]. now rewrite C.
  - cbn [fst snd]. unfold bind, ret.
    destruct (prompt_explain_results sv question (clean sql) (rows res) w3)
      as [explanation w4]. reflexivity.
Qed.

End Calls.

End WorldFacts.

(* ================================================================== *)
(** * The execution coordinator *)
(* ================================================================== *)

Module Coordinator.
Import StrFacts WorldFacts Toy.

(** C7: [insert_rows_from_text] sends every sanitized statement, in
    generation order, each in the world its predecessors left behind and
    whatever they answered: there is one outcome per statement, the
    outcome at each position is the answer of [run_sql] to the statement
    at that position in that world, the request ends in the world all the
    statements left, the report lists every outcome, and with a reachable
    engine the statements reach it one after the other. *)
Theorem insert_rows_partial_failure {St : Type} (sv : Services St)
  (table_name rows_description : str) (w : World St) :
  let raw := fst (prompt_insert_rows sv table_name rows_description w) in
  let w1 := snd (prompt_insert_rows sv table_name rows_description w) in
  let statements := sanitize raw in
  let results := fst (run_statements sv statements w1) in
  let w2 := snd (run_statements sv statements w1) in
  List.length results = List.length statements
  /\ (forall i stmt,
         nth_error statements i = Some stmt ->
         nth_error results i
         = Some (fst (run_sql sv stmt false
                        (world_after sv (firstn i statements) w1))))
  /\ w2 = world_after sv statements w1
  /\ insert_rows_from_text sv table_name rows_description w
     = (lit "Generated SQL:" ++ nl ++ clean raw ++ nl ++ nl
        ++ lit "Results:" ++ nl ++ join nl results, w2)
  /\ ((forall s, mysql_connect sv s = true) ->
      log w2
      = log w1 ++ flat_map (fun q => [EvConnect; EvExecute q]) statements).
Proof.
  intros raw w1 statements results w2.
  destruct (run_statements_threads sv statements w1) as [TW TN].
  split; [|split; [|split; [|split]]].
  - apply run_statements_length.
  - exact TN.
  - exact TW.
  - unfold insert_rows_from_text, bind, ret.
    subst raw w1 statements results w2. unfold sanitize.
    destruct (prompt_insert_rows sv table_name rows_description w)
      as [sql wa]. cbn [fst snd].
    destruct (run_statements sv (split_statements (clean sql)) wa)
      as [rs wb]. reflexivity.
  - intros Hc. now apply run_statements_log.
Qed.

Lemma insert_rows_partial_failure_witness :
  nth_error
    (fst (run_statements (services (inr three_inserts) no_csv)
            (sanitize three_inserts)
            (snd (prompt_insert_rows (services (inr three_inserts) no_csv)
                    (lit "t") (lit "three rows") (start [])))))
    2
  = Some (lit "Success: Query executed. Rows affected: 1")
  /\ log (snd (run_statements (services (inr three_inserts) no_csv)
                 (sanitize three_inserts)
                 (snd (prompt_insert_rows
                         (services (inr three_inserts) no_csv)
                         (lit "t") (lit "three rows") (start [])))))
     = [EvComplete (insert_rows_prompt (lit "t") (lit "three rows")) 0;
        EvConnect; EvExecute (lit "INSERT INTO t VALUES (1);");
        EvConnect; EvExecute (lit "INSRT INTO t VALUES (2);");
        EvConnect; EvExecute (lit "INSERT INTO t VALUES (3);")].
Proof.
  pose proof (insert_rows_partial_failure
                (services (inr three_inserts) no_csv)
                (lit "t") (lit "three rows") (start [])) as T.
  cbv zeta in T. destruct T as [_ [TN [_ [_ TL]]]]. split.
  - exact (TN 2 (lit "INSERT INTO t VALUES (3);") eq_refl).
  - apply TL. reflexivity.
Defined.

(** The order matters and the engine state is carried along: the same
    CREATE TABLE sent twice succeeds once and then fails. *)
Example run_statements_carries_state :
  fst (run_statements (services (inr []) no_csv)
         [lit "CREATE TABLE t (a INT);"; lit "CREATE TABLE t (a INT);"]
         (start []))
  = [lit "Success: Query executed. Rows affected: 0";
     lit "Error executing query: 1050 (42S01): Table 't' already exists"].
Proof. vm_compute. reflexivity. Qed.

(** Statement 2 of 3 malformed: three outcomes, the second a failure. *)
Example insert_rows_second_malformed :
  fst (run_statements (services (inr three_inserts) no_csv)
         (sanitize three_inserts) (start []))
  = [lit "Success: Query executed. Rows affected: 1";
     lit "Error executing query: 1064 (42000): You have an error in your SQL syntax";
     lit "Success: Query executed. Rows affected: 1"].
Proof. vm_compute. reflexivity. Qed.




(** C2, as the code has it: for each single-statement task on its own,
    a failing backend call comes back from the generator as the text
    "Error calling LLM: e", nothing is thrown, and the request goes on:
    the trimmed failure text is passed to [run_sql] like any generated
    SQL, so that after one connection attempt it is, on a live
    connection, the statement sent to the storage engine.
    [create_table_from_text] reports it with the answer of [run_sql];
    [query_handler] returns it as the SQL together with that answer, or,
    should the engine accept it, with the rows and their explanation. *)
Theorem generation_failure_is_executed {St : Type} (sv : Services St)
  (description question table_name : str) (w : World St) :
  (forall (e : str) (s' : St),
      chat_completion sv default_model (create_table_prompt description) 0
        (ext w) = (inl e, s') ->
      let failure := strip (lit "Error calling LLM: " ++ e) in
      let w1 := {| ext := s';
                   log := log w
                          ++ [EvComplete (create_table_prompt description)
                                0] |} in
      prompt_create_table sv description w
      = (lit "Error calling LLM: " ++ e, w1)
      /\ create_table_from_text sv description w
         = (lit "Generated SQL:" ++ nl ++ failure ++ nl ++ nl
            ++ lit "Result: " ++ fst (run_sql sv failure false w1),
            snd (run_sql sv failure false w1))
      /\ log (snd (create_table_from_text sv description w))
         = log w ++ EvComplete (create_table_prompt description) 0
             :: EvConnect
             :: (if mysql_connect sv s' then [EvExecute failure] else []))
  /\ (forall (e : str) (s' : St),
         let schema := fst (get_table_schema sv table_name w) in
         let w1 := snd (get_table_schema sv table_name w) in
         is_empty question = false ->
         is_empty table_name = false ->
         chat_completion sv default_model
           (text_to_sql_prompt question schema) 0 (ext w1) = (inl e, s') ->
         let failure := strip (lit "Error calling LLM: " ++ e) in
         let w2 := {| ext := s';
                      log := log w1
                             ++ [EvComplete
                                   (text_to_sql_prompt question schema)
                                   0] |} in
         prompt_text_to_sql sv question schema w1
         = (lit "Error calling LLM: " ++ e, w2)
         /\ fst (query_handler sv question table_name w)
            = match fst (run_sql sv failure true w2) with
              | inl text => Return (text, failure, [])
              | inr res =>
                  Return
                    (format_results sv res, failure,
                     fst (prompt_explain_results sv question failure
                            (rows res) (snd (run_sql sv failure true w2))))
              end
         /\ log (snd (query_handler sv question table_name w))
            = log w1 ++ EvComplete (text_to_sql_prompt question schema) 0
                :: EvConnect
                :: (if mysql_connect sv s' then [EvExecute failure] else [])
                ++ match fst (run_sql sv failure true w2) with
                   | inl _ => []
                   | inr res =>
                       [EvComplete
                          (explain_results_prompt sv question failure
                             (rows res)) (3 # 10)]
                   end).
Proof.
  split.
  - intros e s' H failure w1.
    assert (L : prompt_create_table sv description w
                = (lit "Error calling LLM: " ++ e, w1)).
    { unfold prompt_create_table. rewrite call_llm_eq, H. reflexivity. }
    assert (E : create_table_from_text sv description w
                = (lit "Generated SQL:" ++ nl ++ failure ++ nl ++ nl
                   ++ lit "Result: " ++ fst (run_sql sv failure false w1),
                   snd (run_sql sv failure false w1))).
    { rewrite create_table_from_text_eq, L. cbv zeta. cbn [fst snd].
      now rewrite clean_failure_text. }
    split; [exact L|]. split; [exact E|].
    rewrite E. cbn [snd]. rewrite run_sql_log. subst w1. cbn [ext log].
    now rewrite <- app_assoc.
  - intros e s' schema w1 Hq Ht H failure w2.
    assert (L : prompt_text_to_sql sv question schema w1
                = (lit "Error calling LLM: " ++ e, w2)).
    { unfold prompt_text_to_sql. rewrite call_llm_eq, H. reflexivity. }
    split; [exact L|].
    rewrite (query_handler_eq sv question table_name w Hq Ht).
    cbv zeta. fold schema. fold w1. rewrite L. cbn [fst snd].
    rewrite clean_failure_text. fold failure.
    pose proof (run_sql_log sv failure true w2) as R.
    destruct (run_sql sv failure true w2) as [[text | res] w3];
      cbn [fst snd] in *.
    + split; [reflexivity|]. rewrite R. subst w2. cbn [ext log].
      rewrite <- app_assoc. cbn [app]. now rewrite app_nil_r.
    + split; [reflexivity|].
      unfold prompt_explain_results. rewrite call_llm_eq. cbn [snd log].
      rewrite R. subst w2. cbn [ext log].
      rewrite <- !app_assoc. reflexivity.
Qed.

Lemma generation_failure_is_executed_witness :
  create_table_from_text Stubs.create_down (lit "a table of students")
    Stubs.start
  = (lit "Generated SQL:" ++ nl ++ lit "Error calling LLM: timeout" ++ nl
     ++ nl ++ lit "Result: Success: Query executed. Rows affected: 1",
     {| ext := 1;
        log := [EvComplete (create_table_prompt (lit "a table of students"))
                  0;
                EvConnect;
                EvExecute (lit "Error calling LLM: timeout")] |})
  /\ fst (query_handler (services (inl (lit "timeout")) no_csv)
            (lit "how many?") (lit "students") (start []))
     = Return (lit "Error executing query: 1064 (42000): You have an error in your SQL syntax",
               lit "Error calling LLM: timeout", []).
Proof.
  split.
  - exact (proj1 (proj2 (proj1 (generation_failure_is_executed
                                  Stubs.create_down
                                  (lit "a table of students") [] []
                                  Stubs.start)
                           (lit "timeout") 0 eq_refl))).
  - exact (proj1 (proj2 (proj2 (generation_failure_is_executed
                                  (services (inl (lit "timeout")) no_csv)
                                  [] (lit "how many?") (lit "students")
                                  (start []))
                           (lit "timeout") [] eq_refl eq_refl eq_refl))).
Defined.

(** C2 as stated fails: with a backend that times out, the failure text
    is sent to the storage engine as if it were SQL. *)
Lemma generation_failure_not_short_circuited :
  create_table_from_text (services (inl (lit "timeout")) no_csv)
    (lit "a table of students") (start [])
  = (lit "Generated SQL:" ++ nl ++ lit "Error calling LLM: timeout"
     ++ nl ++ nl
     ++ lit "Result: Error executing query: 1064 (42000): You have an error in your SQL syntax",
     {| ext := [];
        log := [EvComplete (create_table_prompt (lit "a table of students"))
                  0;
                EvConnect;
                EvExecute (lit "Error calling LLM: timeout")] |}).
Proof. vm_compute. reflexivity. Qed.

(** C9, as the code has it: the three generation-backed tasks always
    hand the cleaned SQL text back, whatever the storage engine answered:
    [create_table_from_text] and [insert_rows_from_text] inside their
    report, [query_handler] as the second component of its result, which
    it always returns. *)
Theorem report_carries_generated_sql {St : Type} (sv : Services St)
  (description table_name rows_description question : str) (w : World St) :
  is_empty question = false ->
  is_empty table_name = false ->
  (exists result,
      fst (create_table_from_text sv description w)
      = lit "Generated SQL:" ++ nl
        ++ clean (fst (prompt_create_table sv description w)) ++ nl ++ nl
        ++ lit "Result: " ++ result)
  /\ (exists results,
         fst (insert_rows_from_text sv table_name rows_description w)
         = lit "Generated SQL:" ++ nl
           ++ clean (fst (prompt_insert_rows sv table_name rows_description
                            w))
           ++ nl ++ nl ++ lit "Results:" ++ nl ++ join nl results)
  /\ (exists result_text explanation,
         fst (query_handler sv question table_name w)
         = Return
             (result_text,
              clean (fst (prompt_text_to_sql sv question
                            (fst (get_table_schema sv table_name w))
                            (snd (get_table_schema sv table_name w)))),
              explanation)).
Proof.
  intros Hq Ht. split; [|split].
  - unfold create_table_from_text, bind, ret.
    destruct (prompt_create_table sv description w) as [sql w1].
    cbn [fst]. destruct (run_sql sv (clean sql) false w1) as [result w2].
    now exists result.
  - unfold insert_rows_from_text, bind, ret.
    destruct (prompt_insert_rows sv table_name rows_description w)
      as [sql w1].
    cbn [fst].
    destruct (run_statements sv (split_statements (clean sql)) w1)
      as [results w2].
    now exists results.
  - unfold query_handler. rewrite Hq, Ht. cbn [orb]. unfold bind at 1.
    destruct (get_table_schema sv table_name w) as [schema w1].
    cbn [fst snd]. unfold bind at 1.
    destruct (prompt_text_to_sql sv question schema w1) as [sql w2].
    cbn [fst]. unfold bind at 1.
    destruct (run_sql sv (clean sql) true w2) as [[text | res] w3] eqn:R.
    + assert (C : contains (lit "Error") text = true).
      { apply (run_sql_fetch_message sv (clean sql) w2). now rewrite R. }
      rewrite C. unfold ret. cbn [fst]. now exists text, [].
    + unfold bind, ret.
      destruct (prompt_explain_results sv question (clean sql) (rows res) w3)
        as [explanation w4].
      cbn [fst]. now exists (format_results sv res), explanation.
Qed.

Lemma report_carries_generated_sql_witness :
  (exists result,
      fst (create_table_from_text (services (inr (lit "SELEC 1;")) no_csv)
             (lit "d") (start []))
      = lit "Generated SQL:" ++ nl
        ++ clean (fst (prompt_create_table
                         (services (inr (lit "SELEC 1;")) no_csv)
                         (lit "d") (start [])))
        ++ nl ++ nl ++ lit "Result: " ++ result)
  /\ (exists results,
         fst (insert_rows_from_text (services (inr (lit "SELEC 1;")) no_csv)
                (lit "t") (lit "r") (start []))
         = lit "Generated SQL:" ++ nl
           ++ clean (fst (prompt_insert_rows
                            (services (inr (lit "SELEC 1;")) no_csv)
                            (lit "t") (lit "r") (start [])))
           ++ nl ++ nl ++ lit "Results:" ++ nl ++ join nl results)
  /\ (exists result_text explanation,
         fst (query_handler (services (inr (lit "SELEC 1;")) no_csv)
                (lit "q") (lit "t") (start []))
         = Return
             (result_text,
              clean (fst (prompt_text_to_sql
                            (services (inr (lit "SELEC 1;")) no_csv)
                            (lit "q")
                            (fst (get_table_schema
                                    (services (inr (lit "SELEC 1;")) no_csv)
                                    (lit "t") (start [])))
                            (snd (get_table_schema
                                    (services (inr (lit "SELEC 1;")) no_csv)
                                    (lit "t") (start []))))),
              explanation)).
Proof.
  apply (report_carries_generated_sql
           (services (inr (lit "SELEC 1;")) no_csv)
           (lit "d") (lit "t") (lit "r") (lit "q") (start []));
    reflexivity.
Defined.

(** A failing execution still reports the SQL, on the toy engine. *)
Example failed_query_reports_sql :
  fst (query_handler (services (inr (lit "SELEC 1;")) no_csv)
         (lit "q") (lit "t") (start [lit "t"]))
  = Return (lit "Error executing query: 1064 (42000): You have an error in your SQL syntax",
            lit "SELEC 1;", []).
Proof. vm_compute. reflexivity. Qed.

(** C9 as stated fails for CSV ingestion: neither the failure report nor
    the success report of [csv_to_sql] holds the SQL that was built and
    sent to the engine. *)
Lemma csv_report_omits_sql :
  let sv := services (inr (lit "SELECT 1;")) (inr people) in
  let failed := csv_to_sql sv (lit "people.csv") (lit "people")
                  (start [lit "people"]) in
  let done := csv_to_sql sv (lit "people.csv") (lit "people") (start []) in
  let create := create_stmt people (lit "people") in
  create = lit "CREATE TABLE people (name VARCHAR(14), score FLOAT);"
  /\ In (EvExecute create) (log (snd failed))
  /\ fst failed
     = lit "Error creating table: Error executing query: 1050 (42S01): Table 'people' already exists"
  /\ contains create (fst failed) = false
  /\ In (EvExecute create) (log (snd done))
  /\ fst done = lit "Success! Created table 'people' and inserted 2 rows."
  /\ contains create (fst done) = false.
Proof.
  vm_compute. repeat split; try reflexivity.
  - right. right. now left.
  - right. right. now left.
Qed.

End Coordinator.

(* ================================================================== *)
(** * More facts: decimal texts and the error test *)
(* ================================================================== *)

Module TextFacts.
Import StrFacts.

Lemma lit_cons (a : ascii) (s : string) :
  lit (String a s) = N_of_ascii a :: lit s.
Proof. reflexivity. Qed.

Lemma uint_digits (d : Decimal.uint) (c : char) :
  In c (lit (NilEmpty.string_of_uint d)) -> (48 <= c <= 57)%N.
Proof.
  induction d as [|d IH|d IH|d IH|d IH|d IH|d IH|d IH|d IH|d IH|d IH];
    cbn [NilEmpty.string_of_uint]; [intros [] | ..];
    rewrite lit_cons; intros [<- | H]; try (now apply IH);
    cbv; split; discriminate.
Qed.

(** [str(n)] holds digits and at most a leading minus sign. *)
Lemma str_of_Z_chars (z : Z) (c : char) :
  In c (str_of_Z z) -> c = 45%N \/ (48 <= c <= 57)%N.
Proof.
  unfold str_of_Z. destruct (Z.to_int z) as [d | d];
    cbn [NilEmpty.string_of_int].
  - intros H. right. exact (uint_digits _ _ H).
  - rewrite lit_cons. intros [<- | H]; [now left|].
    right. exact (uint_digits _ _ H).
Qed.

(** A text without a capital E holds no "Error". *)
Lemma no_E_no_Error (s : str) :
  ~ In 69%N s -> contains (lit "Error") s = false.
Proof.
  induction s as [|c s IH]; intros H; [reflexivity|].
  cbn [contains]. rewrite IH by (intros F; apply H; now right).
  rewrite orb_false_r.
  change (lit "Error") with (69%N :: lit "rror").
  apply ReplaceFacts.startswith_cons_ne. intros E. apply H. now left.
Qed.

Lemma success_message_no_error (n : Z) :
  contains (lit "Error")
    (lit "Success: Query executed. Rows affected: " ++ str_of_Z n) = false.
Proof.
  apply no_E_no_Error. intros H. apply in_app_or in H.
  destruct H as [H | H].
  - revert H. cbv. intuition discriminate.
  - apply str_of_Z_chars in H. destruct H as [H | [H1 H2]].
    + discriminate H.
    + apply N.leb_le in H2. discriminate H2.
Qed.

Lemma contains_prefix (p s : str) : contains p (p ++ s) = true.
Proof. apply contains_spec. now exists [], s. Qed.

Lemma contains_refl (p : str) : contains p p = true.
Proof. apply contains_spec. exists [], []. now rewrite app_nil_r. Qed.

Lemma contains_app_l (p a b : str) :
  contains p a = true -> contains p (a ++ b) = true.
Proof.
  intros H. apply (contains_infix p [] a b) in H. exact H.
Qed.

Lemma contains_app_r (p a b : str) :
  contains p b = true -> contains p (a ++ b) = true.
Proof.
  intros H. apply (contains_infix p a b []) in H.
  now rewrite app_nil_r in H.
Qed.

(** A log that grew by an event is not the log it grew from. *)
Lemma log_grew (l rest : list Event) (e : Event) : l ++ e :: rest <> l.
Proof.
  intros H. apply (f_equal (@List.length Event)) in H.
  rewrite length_app in H. simpl in H. lia.
Qed.

End TextFacts.

(* ================================================================== *)
(** * The storage layer: what a call does and what its answer tells *)
(* ================================================================== *)

Module Storage.
Import StrFacts WorldFacts TextFacts.

Section Engine.

Context {St : Type} (sv : Services St).

(** X1.  The text test ["Error" in result], with which [csv_to_sql]
    tells failure from success, is exact for [run_sql(query, fetch=False)]:
    the answer holds "Error" exactly when the statement did not go
    through. *)
Theorem run_sql_error_test_exact (query : str) (w : World St) :
  contains (lit "Error") (fst (run_sql sv query false w))
  = negb (statement_succeeds sv query (ext w)).
Proof.
  unfold statement_succeeds. step_world.
  destruct (mysql_connect sv (ext w)); step_world; [|reflexivity].
  destruct (cursor_execute sv query (ext w)) as [[e | cursor] s'];
    step_world; cbn [message andb negb].
  - apply contains_spec. exists [], (lit " executing query: " ++ e).
    reflexivity.
  - destruct (commit cursor) as [e |]; step_world; cbn [negb].
    + apply contains_spec. exists [], (lit " executing query: " ++ e).
      reflexivity.
    + apply success_message_no_error.
Qed.

(** X2.  One call of [run_sql] tries the connection once and sends the
    query at most once, namely when the connection is live; the engine
    state changes through that one execution only.  Nothing is retried. *)
Theorem run_sql_single_attempt (query : str) (fetch : bool) (w : World St) :
  log (snd (run_sql sv query fetch w))
  = log w ++ EvConnect
      :: (if mysql_connect sv (ext w) then [EvExecute query] else [])
  /\ ext (snd (run_sql sv query fetch w))
     = (if mysql_connect sv (ext w)
        then snd (cursor_execute sv query (ext w))
        else ext w).
Proof.
  split; [apply run_sql_log|].
  step_world. destruct (mysql_connect sv (ext w)); step_world;
    [|reflexivity].
  destruct (cursor_execute sv query (ext w)) as [[e | cursor] s'];
    step_world; [reflexivity|].
  destruct fetch; [destruct (fetchall cursor) | destruct (commit cursor)];
    reflexivity.
Qed.

(** X3.  The schema text tells failure from success by its first word: it
    opens with "Error" exactly when the lookup failed, and with
    "Table: <name>" exactly when it went through. *)
Theorem get_table_schema_prefix (table_name : str) (w : World St) :
  startswith (lit "Error") (fst (get_table_schema sv table_name w))
  = negb (lookup_succeeds sv table_name (ext w))
  /\ startswith (lit "Table: " ++ table_name ++ nl)
       (fst (get_table_schema sv table_name w))
     = lookup_succeeds sv table_name (ext w).
Proof.
  unfold lookup_succeeds. step_world.
  destruct (mysql_connect sv (ext w)); step_world.
  - destruct (cursor_execute sv (lit "DESCRIBE " ++ table_name) (ext w))
      as [[e | cursor] s']; step_world; cbn [andb negb].
    + split; [|reflexivity].
      apply startswith_spec. exists (lit " fetching schema: " ++ e).
      reflexivity.
    + destruct (fetchall cursor) as [e | schema]; step_world.
      * split; [|reflexivity].
        apply startswith_spec. exists (lit " fetching schema: " ++ e).
        reflexivity.
      * split; [reflexivity|].
        apply startswith_spec. eexists.
        rewrite <- !app_assoc. reflexivity.
  - split; reflexivity.
Qed.

(** X4.  For a table that can be described, the schema text has a line
    for every column, with its name and its type. *)
Theorem get_table_schema_lists_columns (table_name : str) (w : World St)
  (cursor : Cursor) (schema : list Row) (col : Row) :
  mysql_connect sv (ext w) = true ->
  fst (cursor_execute sv (lit "DESCRIBE " ++ table_name) (ext w))
  = inr cursor ->
  fetchall cursor = inr schema ->
  In col schema ->
  contains
    (lit "  - " ++ str_value (nth 0 col VNull) ++ lit " ("
     ++ str_value (nth 1 col VNull) ++ lit ")" ++ nl)
    (fst (get_table_schema sv table_name w)) = true.
Proof.
  intros Hc He Hf Hin. step_world. rewrite Hc. step_world.
  destruct (cursor_execute sv (lit "DESCRIBE " ++ table_name) (ext w))
    as [r s']. cbn [fst] in He. subst r. step_world. rewrite Hf.
  step_world.
  do 5 apply contains_app_r.
  apply in_split in Hin. destruct Hin as [l1 [l2 ->]].
  rewrite map_app, concat_app. apply contains_app_r.
  cbn [List.map List.concat]. apply contains_app_l.
  apply contains_refl.
Qed.

(** X5.  Without a connection [list_tables] answers the empty list and
    sends nothing; otherwise it sends SHOW TABLES, once, and answers the
    first cell of every row, or the empty list when the statement or the
    fetch raises: a failure looks like a database without tables. *)
Theorem list_tables_answer (w : World St) :
  log (snd (list_tables sv w))
  = log w ++ EvConnect
      :: (if mysql_connect sv (ext w)
          then [EvExecute (lit "SHOW TABLES")] else [])
  /\ fst (list_tables sv w)
     = (if mysql_connect sv (ext w)
        then match fst (cursor_execute sv (lit "SHOW TABLES") (ext w)) with
             | inr cursor =>
                 match fetchall cursor with
                 | inr fetched =>
                     List.map (fun table => nth 0 table VNull) fetched
                 | inl _ => []
                 end
             | inl _ => []
             end
        else []).
Proof.
  unfold list_tables. step_world.
  destruct (mysql_connect sv (ext w)); step_world; [|now split].
  destruct (cursor_execute sv (lit "SHOW TABLES") (ext w))
    as [[e | cursor] s']; step_world.
  - split; [now rewrite <- app_assoc | reflexivity].
  - destruct (fetchall cursor); step_world;
      (split; [now rewrite <- app_assoc | reflexivity]).
Qed.

End Engine.

Lemma get_table_schema_lists_columns_witness :
  contains
    (lit "  - " ++ str_value (nth 0 [VStr (lit "id"); VStr (lit "int")] VNull)
     ++ lit " ("
     ++ str_value (nth 1 [VStr (lit "id"); VStr (lit "int")] VNull)
     ++ lit ")" ++ nl)
    (fst (get_table_schema (Toy.services (inr (lit "SELECT 1;")) Toy.no_csv)
            (lit "students") (Toy.start [lit "students"]))) = true.
Proof.
  apply (get_table_schema_lists_columns
           (Toy.services (inr (lit "SELECT 1;")) Toy.no_csv)
           (lit "students") (Toy.start [lit "students"])
           {| description := Some [lit "Field"; lit "Type"];
              fetchall := inr [[VStr (lit "id"); VStr (lit "int")]];
              rowcount := 1; commit := Toy.unread_result |}
           [[VStr (lit "id"); VStr (lit "int")]]
           [VStr (lit "id"); VStr (lit "int")]);
    try reflexivity.
  now left.
Defined.

End Storage.

(* ================================================================== *)
(** * The clean-up and the statement split, further *)
(* ================================================================== *)

Module Cleaning.
Import StrFacts SplitFacts ReplaceFacts SanitizeFacts TextFacts.

(** X6.  The clean-up block is idempotent and its result carries no white
    space at either end: cleaning a cleaned text changes nothing. *)
Theorem clean_idempotent (raw : str) :
  clean (clean raw) = clean raw /\ strip (clean raw) = clean raw.
Proof.
  assert (T : strip (clean raw) = clean raw)
    by (apply trimmed_strip, clean_trimmed).
  split; [|exact T].
  destruct (startswith fence_sql (strip raw)) eqn:E.
  - pose proof (clean_tagged_no_fence _ E) as Hno.
    rewrite (clean_untagged (clean raw)); [exact T|].
    rewrite T.
    destruct (startswith fence_sql (clean raw)) eqn:F; [|reflexivity].
    apply fence_sql_contains_fence in F. congruence.
  - rewrite (clean_untagged _ E).
    unfold clean. rewrite strip_idem, E. reflexivity.
Qed.

(** X7.  Every statement that [insert_rows_from_text] sends holds exactly
    one terminator, its last character, after a non-empty body; it has no
    white space at either end. *)
Theorem statement_single_terminator (raw st : str) :
  In st (sanitize raw) ->
  strip st = st
  /\ count_occ N.eq_dec st semicolon = 1
  /\ exists t, st = t ++ [semicolon] /\ t <> [] /\ ~ In semicolon t.
Proof.
  intros H. destruct (statement_shape _ _ H) as [t [-> [Hb _]]].
  split; [now apply strip_statement|].
  destruct Hb as [Hne [_ Hno]]. split.
  - assert (C : count_occ N.eq_dec t semicolon = 0)
      by (now apply count_occ_not_In).
    rewrite count_occ_app. unfold char in *. rewrite C. reflexivity.
  - now exists t.
Qed.

Lemma statement_single_terminator_witness :
  strip (lit "SELECT 1;") = lit "SELECT 1;"
  /\ count_occ N.eq_dec (lit "SELECT 1;") semicolon = 1
  /\ exists t, lit "SELECT 1;" = t ++ [semicolon] /\ t <> []
               /\ ~ In semicolon t.
Proof.
  apply (statement_single_terminator (lit " SELECT 1; ; ")
           (lit "SELECT 1;")).
  now left.
Defined.

Lemma split_go_length (sep : char) (s cur : str) :
  List.length (split_go sep cur s) = S (count_occ N.eq_dec s sep).
Proof.
  revert cur; induction s as [|c s IH]; intros cur; [reflexivity|].
  cbn [split_go count_occ].
  destruct (N.eqb_spec c sep) as [->|Hne].
  - destruct (N.eq_dec sep sep) as [_|F]; [|congruence].
    cbn [List.length]. now rewrite IH.
  - destruct (N.eq_dec c sep) as [F|_]; [congruence|]. apply IH.
Qed.

Lemma terminate_length (frags : list str) :
  List.length (terminate frags) <= List.length frags.
Proof.
  induction frags as [|f frags IH]; [reflexivity|].
  cbn [terminate]. destruct (strip f); cbn [List.length]; lia.
Qed.

(** X8.  [str.split] cuts a text with n terminators into n + 1 fragments,
    so the sanitizer never yields more than n + 1 statements; a cleaned
    text without any terminator yields at most one. *)
Theorem statement_count_bound (raw : str) :
  List.length (split semicolon (clean raw))
  = S (count_occ N.eq_dec (clean raw) semicolon)
  /\ List.length (sanitize raw)
     <= S (count_occ N.eq_dec (clean raw) semicolon).
Proof.
  assert (L : List.length (split semicolon (clean raw))
              = S (count_occ N.eq_dec (clean raw) semicolon))
    by apply split_go_length.
  split; [exact L|].
  unfold sanitize, split_statements. rewrite <- L. apply terminate_length.
Qed.

End Cleaning.

(* ================================================================== *)
(** * CSV ingestion, further: identifiers, widths, literals *)
(* ================================================================== *)

Module Literals.
Import StrFacts ReplaceFacts TextFacts.

Lemma replace_char_map (x y : char) (s : str) :
  replace [x] [y] s = List.map (fun c => if (c =? x)%N then y else c) s.
Proof.
  rewrite replace_char. induction s as [|c s IH]; [reflexivity|].
  cbn [flat_map List.map]. rewrite IH. now destruct (c =? x)%N.
Qed.

(** X9.  A column name is trimmed and then rewritten character by
    character, spaces and hyphens becoming underscores: the identifier has
    the length of the trimmed name and holds neither a space nor a
    hyphen. *)
Theorem clean_col_identifier (col : str) :
  clean_col col = List.map underscore_for (strip col)
  /\ List.length (clean_col col) = List.length (strip col)
  /\ ~ In 32%N (clean_col col)
  /\ ~ In 45%N (clean_col col).
Proof.
  assert (E : clean_col col = List.map underscore_for (strip col)).
  { unfold clean_col.
    change (lit "-") with [45%N]. change (lit "_") with [95%N].
    change (lit " ") with [32%N].
    rewrite !replace_char_map, map_map. apply map_ext. intros c.
    unfold underscore_for.
    destruct (N.eqb_spec c 32) as [->|H1]; [reflexivity|].
    cbn [orb]. now destruct (c =? 45)%N. }
  split; [exact E|]. rewrite E. split; [apply length_map|].
  split; intros H; apply in_map_iff in H; destruct H as [c [H _]];
    unfold underscore_for in H;
    destruct (c =? 32)%N eqn:E1; destruct (c =? 45)%N eqn:E2;
    cbn [orb] in H; try discriminate H; subst c; discriminate.
Qed.

(** X10.  The declared VARCHAR width never exceeds 500, and every sampled
    non-null value of at most 500 characters fits into it. *)
Theorem varchar_width_fits (d : dtype) (samples : list value) :
  is_integer_dtype d = false -> is_float_dtype d = false ->
  is_bool_dtype d = false -> is_datetime64_any_dtype d = false ->
  exists n,
    infer_sql_type d samples = lit "VARCHAR(" ++ str_of_nat n ++ lit ")"
    /\ n <= 500
    /\ forall v, In v samples -> notna v = true ->
                 List.length (str_value v) <= 500 ->
                 List.length (str_value v) <= n.
Proof.
  intros H1 H2 H3 H4.
  exists (Nat.min (max_default (sample_lengths samples) 255 * 2) 500).
  split; [|split].
  - unfold infer_sql_type. now rewrite H1, H2, H3, H4.
  - apply Nat.le_min_r.
  - intros v Hv Hn Hlen.
    destruct (Ingest.max_default_observed samples) as [[Hall _] | [_ Hmax]].
    + rewrite (Hall v Hv) in Hn. discriminate.
    + specialize (Hmax v Hv Hn). lia.
Qed.

Lemma varchar_width_fits_witness :
  exists n,
    infer_sql_type object_ [VStr (lit "Alice"); VNull]
    = lit "VARCHAR(" ++ str_of_nat n ++ lit ")"
    /\ n <= 500
    /\ forall v, In v [VStr (lit "Alice"); VNull] -> notna v = true ->
                 List.length (str_value v) <= 500 ->
                 List.length (str_value v) <= n.
Proof.
  apply (varchar_width_fits object_ [VStr (lit "Alice"); VNull]);
    reflexivity.
Defined.

Lemma unescape_escape (s : str) :
  replace [squote; squote] [squote]
    (flat_map double_quote s) = s.
Proof.
  induction s as [|c s IH]; [reflexivity|].
  cbn [flat_map]. unfold double_quote at 1.
  destruct (N.eqb_spec c squote) as [->|Hne].
  - rewrite replace_hit by reflexivity.
    cbn [List.length skipn app]. now rewrite IH.
  - cbn [app]. rewrite replace_miss.
    + now rewrite IH.
    + apply startswith_cons_ne. congruence.
Qed.

(** X11.  The escaping of quotes loses nothing: between its two outer
    quotes the literal of a string value is a text from which replacing
    each doubled quote by a single one gives the value back; two different
    strings never get the same literal. *)
Theorem string_literal_round_trip (s : str) :
  (exists e, render_value (VStr s) = squote :: e ++ [squote]
             /\ replace (lit "''") (lit "'") e = s)
  /\ forall s', render_value (VStr s') = render_value (VStr s) -> s' = s.
Proof.
  assert (R : forall u, render_value (VStr u)
                        = squote :: flat_map double_quote u ++ [squote]).
  { intros u. unfold render_value. cbn [isna isinstance_str str_value].
    change (lit "'") with [squote].
    change (lit "''") with [squote; squote].
    rewrite replace_char. reflexivity. }
  split.
  - exists (flat_map double_quote s). split; [apply R|].
    apply unescape_escape.
  - intros s' H. rewrite !R in H. injection H as H.
    apply app_inj_tail in H. destruct H as [H _].
    rewrite <- (unescape_escape s'), H. apply unescape_escape.
Qed.

Lemma string_literal_round_trip_witness : lit "O'Brien" = lit "O'Brien".
Proof.
  apply (proj2 (string_literal_round_trip (lit "O'Brien")) (lit "O'Brien")).
  reflexivity.
Defined.

End Literals.

(* ================================================================== *)
(** * The prompt templates *)
(* ================================================================== *)

Module Prompts.
Import StrFacts SanitizeFacts TextFacts.

(** Look for the wanted text among the pieces of a template. *)
Ltac find_part :=
  lazymatch goal with
  | |- contains ?p ?p = true => apply contains_refl
  | |- contains ?p (?a ++ ?b) = true =>
      first [ apply contains_app_l; find_part
            | apply contains_app_r; find_part ]
  | |- contains ?p (join _ (_ :: _ :: _)) = true =>
      rewrite join_cons2; find_part
  | |- contains ?p (join _ [_]) = true => cbn [join]; find_part
  end.

(** X12.  Every template carries its arguments verbatim, without any
    escaping: the schema text and the question in the SELECT prompt, the
    description in the CREATE TABLE prompt, the table name and the row
    description in the INSERT prompt, the question, the SQL and the rows
    in the explanation prompt. *)
Theorem prompts_embed_arguments {St : Type} (sv : Services St)
  (description table_name rows_description question schema sql : str)
  (results : list Row) :
  contains schema (text_to_sql_prompt question schema) = true
  /\ contains question (text_to_sql_prompt question schema) = true
  /\ contains description (create_table_prompt description) = true
  /\ contains table_name (insert_rows_prompt table_name rows_description)
     = true
  /\ contains rows_description
       (insert_rows_prompt table_name rows_description) = true
  /\ contains question (explain_results_prompt sv question sql results)
     = true
  /\ contains sql (explain_results_prompt sv question sql results) = true
  /\ contains (str_rows sv results)
       (explain_results_prompt sv question sql results) = true.
Proof.
  unfold text_to_sql_prompt, create_table_prompt, insert_rows_prompt,
    explain_results_prompt.
  repeat split; find_part.
Qed.

End Prompts.

(* ================================================================== *)
(** * Facts about the flow of a request *)
(* ================================================================== *)

Module FlowFacts.
Import StrFacts WorldFacts TextFacts.

Section Flow.

Context {St : Type} (sv : Services St).

Lemma run_sql_flags_failure (query : str) (w : World St) :
  contains (lit "Error") (fst (run_sql sv query false w))
  = negb (statement_succeeds sv query (ext w)).
Proof.
  unfold statement_succeeds. step_world.
  destruct (mysql_connect sv (ext w)); step_world; [|reflexivity].
  destruct (cursor_execute sv query (ext w)) as [[e | cursor] s'];
    step_world; cbn [message andb negb].
  - apply contains_spec. exists [], (lit " executing query: " ++ e).
    reflexivity.
  - destruct (commit cursor) as [e |]; step_world; cbn [negb].
    + apply contains_spec. exists [], (lit " executing query: " ++ e).
      reflexivity.
    + apply success_message_no_error.
Qed.

Lemma get_table_schema_grows (table_name : str) (w : World St) :
  exists rest,
    log (snd (get_table_schema sv table_name w))
    = log w ++ EvConnect :: rest.
Proof.
  step_world. destruct (mysql_connect sv (ext w)); step_world.
  - destruct (cursor_execute sv (lit "DESCRIBE " ++ table_name) (ext w))
      as [[e | cursor] s']; step_world.
    + eexists. now rewrite <- app_assoc.
    + destruct (fetchall cursor); step_world; eexists;
        now rewrite <- app_assoc.
  - now exists [].
Qed.

Lemma insert_loop_grows (table_name : str) (rws : list (list value))
  (n : nat) (w : World St) :
  grows w (snd (insert_loop sv table_name rws n w)).
Proof.
  revert n w; induction rws as [|row rest IH]; intros n w.
  - apply grows_refl.
  - cbn [insert_loop]. unfold bind.
    pose proof (run_sql_grows sv (insert_stmt table_name row) false w) as G.
    destruct (run_sql sv (insert_stmt table_name row) false w)
      as [result w1]. cbn [snd] in G.
    destruct (negb (contains (lit "Error") result));
      (eapply grows_trans; [exact G | apply IH]).
Qed.

Lemma run_statements_grows (statements : list str) (w : World St) :
  grows w (snd (run_statements sv statements w)).
Proof.
  revert w; induction statements as [|stmt rest IH]; intros w.
  - apply grows_refl.
  - cbn [run_statements]. unfold bind.
    pose proof (run_sql_grows sv stmt false w) as G.
    destruct (run_sql sv stmt false w) as [result w1]. cbn [snd] in G.
    specialize (IH w1).
    destruct (run_statements sv rest w1) as [results w2]. cbn [snd] in *.
    unfold ret. cbn [snd]. eapply grows_trans; eassumption.
Qed.

(** The INSERT loop on a reachable engine: one attempt per row, in file
    order, and a count that grows by at most one per row. *)
Lemma insert_loop_trace (table_name : str) (rws : list (list value))
  (n : nat) (w : World St) :
  (forall s, mysql_connect sv s = true) ->
  log (snd (insert_loop sv table_name rws n w))
  = log w
    ++ flat_map (fun row => [EvConnect; EvExecute (insert_stmt table_name row)])
         rws
  /\ n <= fst (insert_loop sv table_name rws n w) <= n + List.length rws.
Proof.
  intros Hc. revert n w; induction rws as [|row rest IH]; intros n w.
  - cbn [insert_loop flat_map List.length]. unfold ret. cbn [fst snd].
    split; [now rewrite app_nil_r | lia].
  - cbn [insert_loop flat_map List.length]. unfold bind.
    pose proof (run_sql_log sv (insert_stmt table_name row) false w) as L.
    rewrite Hc in L.
    destruct (run_sql sv (insert_stmt table_name row) false w)
      as [result w1]. cbn [snd] in L.
    destruct (negb (contains (lit "Error") result)).
    + destruct (IH (n + 1) w1) as [IL IC]. rewrite IL, L.
      split; [now rewrite <- app_assoc | lia].
    + destruct (IH n w1) as [IL IC]. rewrite IL, L.
      split; [now rewrite <- app_assoc | lia].
Qed.

(** When no statement can fail, every row is counted. *)
Lemma insert_loop_all_counted (table_name : str) (rws : list (list value))
  (n : nat) (w : World St) :
  (forall q s, statement_succeeds sv q s = true) ->
  fst (insert_loop sv table_name rws n w) = n + List.length rws.
Proof.
  intros Hs. revert n w; induction rws as [|row rest IH]; intros n w.
  - cbn [insert_loop List.length]. unfold ret. cbn [fst]. lia.
  - cbn [insert_loop List.length]. unfold bind.
    pose proof (run_sql_flags_failure (insert_stmt table_name row) w) as F.
    rewrite Hs in F.
    destruct (run_sql sv (insert_stmt table_name row) false w)
      as [result w1]. cbn [fst negb] in F. rewrite F. cbn [negb].
    rewrite IH. lia.
Qed.

(** [csv_to_sql] on a file that holds rows, as one equation. *)
Lemma csv_to_sql_with_rows (file_path table_name : str) (w : World St)
  (df : DataFrame) :
  read_csv sv file_path (ext w) = inr df ->
  df_empty df = false ->
  csv_to_sql sv file_path table_name w
  = (let r := run_sql sv (create_stmt df table_name) false
                (after_read w file_path) in
     if contains (lit "Error") (fst r)
     then (lit "Error creating table: " ++ fst r, snd r)
     else
       let l := insert_loop sv table_name (df_rows df) 0 (snd r) in
       (lit "Success! Created table '" ++ table_name
        ++ lit "' and inserted " ++ str_of_nat (fst l) ++ lit " rows.",
        snd l)).
Proof.
  intros Hr He.
  unfold csv_to_sql, bind, emit, peek, ret, after_read.
  cbn [ext log fst snd]. rewrite Hr, He. cbv zeta.
  destruct (run_sql sv (create_stmt df table_name) false _)
    as [result w1].
  cbn [fst snd]. destruct (contains (lit "Error") result); [reflexivity|].
  destruct (insert_loop sv table_name (df_rows df) 0 w1) as [n w2].
  reflexivity.
Qed.

End Flow.

End FlowFacts.

(* ================================================================== *)
(** * CSV ingestion as a whole *)
(* ================================================================== *)

Module CsvIngest.
Import StrFacts WorldFacts TextFacts FlowFacts.

(** X13.  A file that cannot be read, or that holds no row, ends the
    ingestion with a message before the storage engine is touched. *)
Theorem csv_without_data {St : Type} (sv : Services St)
  (file_path table_name : str) (w : World St) :
  (forall e, read_csv sv file_path (ext w) = inl e ->
             csv_to_sql sv file_path table_name w
             = (lit "Error processing CSV: " ++ e, after_read w file_path))
  /\ (forall df, read_csv sv file_path (ext w) = inr df ->
                 df_empty df = true ->
                 csv_to_sql sv file_path table_name w
                 = (lit "Error: CSV file is empty", after_read w file_path)).
Proof.
  split; intros x H; unfold csv_to_sql, bind, emit, peek, ret, after_read;
    cbn [ext log fst snd]; rewrite H; [reflexivity|].
  intros E. now rewrite E.
Qed.

Lemma csv_without_data_witness :
  csv_to_sql (Toy.services (inr (lit "SELECT 1;")) Toy.no_csv)
    (lit "gone.csv") (lit "t") (Toy.start [])
  = (lit "Error processing CSV: " ++ lit "No such file",
     after_read (Toy.start []) (lit "gone.csv"))
  /\ csv_to_sql (Stubs.lenient (inr Stubs.header_only))
       (lit "empty.csv") (lit "t") Stubs.start
     = (lit "Error: CSV file is empty",
        after_read Stubs.start (lit "empty.csv")).
Proof.
  split.
  - apply (proj1 (csv_without_data
                    (Toy.services (inr (lit "SELECT 1;")) Toy.no_csv)
                    (lit "gone.csv") (lit "t") (Toy.start []))).
    reflexivity.
  - apply (proj2 (csv_without_data (Stubs.lenient (inr Stubs.header_only))
                    (lit "empty.csv") (lit "t") Stubs.start)
             Stubs.header_only); reflexivity.
Defined.

(** X14.  When CREATE TABLE does not go through, the ingestion stops
    there: the engine's answer is reported and no INSERT is attempted. *)
Theorem csv_create_failure_aborts {St : Type} (sv : Services St)
  (file_path table_name : str) (w : World St) (df : DataFrame) :
  read_csv sv file_path (ext w) = inr df ->
  df_empty df = false ->
  statement_succeeds sv (create_stmt df table_name) (ext w) = false ->
  fst (csv_to_sql sv file_path table_name w)
  = lit "Error creating table: "
    ++ fst (run_sql sv (create_stmt df table_name) false
              (after_read w file_path))
  /\ log (snd (csv_to_sql sv file_path table_name w))
     = log w ++ EvReadCsv file_path :: EvConnect
         :: (if mysql_connect sv (ext w)
             then [EvExecute (create_stmt df table_name)] else []).
Proof.
  intros Hr He Hs.
  rewrite (csv_to_sql_with_rows sv file_path table_name w df Hr He).
  cbv zeta.
  pose proof (run_sql_flags_failure sv (create_stmt df table_name)
                (after_read w file_path)) as F.
  pose proof (run_sql_log sv (create_stmt df table_name) false
                (after_read w file_path)) as L.
  cbn [after_read ext log] in F, L. rewrite Hs in F.
  cbn [negb] in F. rewrite F. cbn [fst snd].
  split; [reflexivity|]. rewrite L. now rewrite <- app_assoc.
Qed.

Lemma csv_create_failure_aborts_witness :
  fst (csv_to_sql (Toy.services (inr (lit "SELECT 1;")) (inr Toy.people))
         (lit "people.csv") (lit "people") (Toy.start [lit "people"]))
  = lit "Error creating table: "
    ++ fst (run_sql (Toy.services (inr (lit "SELECT 1;")) (inr Toy.people))
              (create_stmt Toy.people (lit "people")) false
              (after_read (Toy.start [lit "people"]) (lit "people.csv")))
  /\ log (snd (csv_to_sql
                 (Toy.services (inr (lit "SELECT 1;")) (inr Toy.people))
                 (lit "people.csv") (lit "people")
                 (Toy.start [lit "people"])))
     = log (Toy.start [lit "people"]) ++ EvReadCsv (lit "people.csv")
         :: EvConnect
         :: [EvExecute (create_stmt Toy.people (lit "people"))].
Proof.
  apply (csv_create_failure_aborts
           (Toy.services (inr (lit "SELECT 1;")) (inr Toy.people))
           (lit "people.csv") (lit "people") (Toy.start [lit "people"])
           Toy.people); reflexivity.
Defined.

(** X15.  Once CREATE TABLE went through on a reachable engine, every
    row of the file is sent as its own INSERT, in file order, whatever
    the earlier INSERTs answered; the count in the report is at most the
    number of rows. *)
Theorem csv_every_row_attempted {St : Type} (sv : Services St)
  (file_path table_name : str) (w : World St) (df : DataFrame) :
  read_csv sv file_path (ext w) = inr df ->
  df_empty df = false ->
  (forall s, mysql_connect sv s = true) ->
  statement_succeeds sv (create_stmt df table_name) (ext w) = true ->
  (exists n,
      n <= List.length (df_rows df)
      /\ fst (csv_to_sql sv file_path table_name w)
         = lit "Success! Created table '" ++ table_name
           ++ lit "' and inserted " ++ str_of_nat n ++ lit " rows.")
  /\ log (snd (csv_to_sql sv file_path table_name w))
     = log w ++ EvReadCsv file_path :: EvConnect
         :: EvExecute (create_stmt df table_name)
         :: flat_map
              (fun row => [EvConnect; EvExecute (insert_stmt table_name row)])
              (df_rows df).
Proof.
  intros Hr He Hc Hs.
  rewrite (csv_to_sql_with_rows sv file_path table_name w df Hr He).
  cbv zeta.
  pose proof (run_sql_flags_failure sv (create_stmt df table_name)
                (after_read w file_path)) as F.
  pose proof (run_sql_log sv (create_stmt df table_name) false
                (after_read w file_path)) as L.
  cbn [after_read ext log] in F, L. rewrite Hs in F. rewrite Hc in L.
  cbn [negb] in F. rewrite F. cbn [fst snd].
  destruct (insert_loop_trace sv table_name (df_rows df) 0
              (snd (run_sql sv (create_stmt df table_name) false
                      (after_read w file_path))) Hc) as [IL IC].
  split.
  - eexists. split; [|reflexivity]. lia.
  - rewrite IL, L. rewrite <- !app_assoc. reflexivity.
Qed.

Lemma csv_every_row_attempted_witness :
  (exists n,
      n <= List.length (df_rows Toy.people)
      /\ fst (csv_to_sql
                (Toy.services (inr (lit "SELECT 1;")) (inr Toy.people))
                (lit "people.csv") (lit "people") (Toy.start []))
         = lit "Success! Created table '" ++ lit "people"
           ++ lit "' and inserted " ++ str_of_nat n ++ lit " rows.")
  /\ log (snd (csv_to_sql
                 (Toy.services (inr (lit "SELECT 1;")) (inr Toy.people))
                 (lit "people.csv") (lit "people") (Toy.start [])))
     = log (Toy.start []) ++ EvReadCsv (lit "people.csv") :: EvConnect
         :: EvExecute (create_stmt Toy.people (lit "people"))
         :: flat_map
              (fun row =>
                 [EvConnect; EvExecute (insert_stmt (lit "people") row)])
              (df_rows Toy.people).
Proof.
  apply (csv_every_row_attempted
           (Toy.services (inr (lit "SELECT 1;")) (inr Toy.people))
           (lit "people.csv") (lit "people") (Toy.start []) Toy.people);
    reflexivity.
Defined.

(** X16.  On an engine where no statement fails, the report counts every
    row of the file. *)
Theorem csv_all_rows_counted {St : Type} (sv : Services St)
  (file_path table_name : str) (w : World St) (df : DataFrame) :
  read_csv sv file_path (ext w) = inr df ->
  df_empty df = false ->
  (forall q s, statement_succeeds sv q s = true) ->
  fst (csv_to_sql sv file_path table_name w)
  = lit "Success! Created table '" ++ table_name ++ lit "' and inserted "
    ++ str_of_nat (List.length (df_rows df)) ++ lit " rows.".
Proof.
  intros Hr He Hs.
  rewrite (csv_to_sql_with_rows sv file_path table_name w df Hr He).
  cbv zeta.
  pose proof (run_sql_flags_failure sv (create_stmt df table_name)
                (after_read w file_path)) as F.
  rewrite Hs in F. cbn [negb] in F. rewrite F. cbn [fst].
  now rewrite (insert_loop_all_counted sv table_name (df_rows df) 0 _ Hs).
Qed.

Lemma csv_all_rows_counted_witness :
  fst (csv_to_sql (Stubs.lenient (inr Toy.people))
         (lit "people.csv") (lit "people") Stubs.start)
  = lit "Success! Created table '" ++ lit "people" ++ lit "' and inserted "
    ++ str_of_nat (List.length (df_rows Toy.people)) ++ lit " rows.".
Proof.
  apply (csv_all_rows_counted (Stubs.lenient (inr Toy.people))
           (lit "people.csv") (lit "people") Stubs.start Toy.people);
    reflexivity.
Defined.

End CsvIngest.

(* ================================================================== *)
(** * The handlers: guards, traces, the two ends of a query *)
(* ================================================================== *)

Module Handlers.
Import StrFacts SplitFacts WorldFacts TextFacts FlowFacts.

Section Requests.

Context {St : Type} (sv : Services St).

Lemma world_changed (w w' : World St) (e : Event) (rest : list Event) :
  log w' = log w ++ e :: rest -> w' <> w.
Proof.
  intros H E. subst w'. symmetry in H. exact (log_grew _ _ _ H).
Qed.

Lemma call_llm_starts (prompt : str) (temperature : Q) (w : World St)
  (w' : World St) :
  grows (snd (call_llm sv prompt temperature w)) w' ->
  log w' <> log w.
Proof.
  rewrite call_llm_eq. cbn [snd]. intros [l H]. cbn [log] in H.
  rewrite H, <- app_assoc. apply log_grew.
Qed.

(** X17.  Each handler checks its fields before anything else: the world
    is left untouched, no file read, no backend call, no connection,
    exactly when a required field is missing. *)
Theorem handlers_validate_input (w : World St) :
  (forall table_name,
      upload_csv_handler sv None table_name w
      = (lit "Please upload a CSV file", w))
  /\ (forall name table_name,
         snd (upload_csv_handler sv (Some name) table_name w) = w
         <-> is_empty table_name = true)
  /\ (forall description,
         snd (create_table_handler sv description w) = w
         <-> is_empty description = true)
  /\ (forall table_name rows_description,
         snd (insert_rows_handler sv table_name rows_description w) = w
         <-> is_empty table_name || is_empty rows_description = true)
  /\ (forall question table_name,
         snd (query_handler sv question table_name w) = w
         <-> is_empty question || is_empty table_name = true).
Proof.
  split; [reflexivity|]. split; [|split; [|split]].
  - intros name table_name. unfold upload_csv_handler.
    destruct (is_empty table_name); [now split|].
    split; [|discriminate]. intros H. exfalso.
    assert (G : exists rest,
               log (snd (csv_to_sql sv name table_name w))
               = log w ++ EvReadCsv name :: rest).
    { unfold csv_to_sql, bind, emit, peek, ret. cbn [ext log fst snd].
      destruct (read_csv sv name (ext w)) as [e | df];
        [now exists []|].
      destruct (df_empty df); [now exists []|].
      pose proof (run_sql_grows sv (create_stmt df table_name) false
                    {| ext := ext w; log := log w ++ [EvReadCsv name] |})
        as [l1 G1].
      destruct (run_sql sv (create_stmt df table_name) false _)
        as [result w1]. cbn [snd log] in G1.
      destruct (contains (lit "Error") result).
      - exists l1. cbn [snd]. now rewrite G1, <- app_assoc.
      - pose proof (insert_loop_grows sv table_name (df_rows df) 0 w1)
          as [l2 G2].
        destruct (insert_loop sv table_name (df_rows df) 0 w1) as [n w2].
        cbn [snd] in *. exists (l1 ++ l2).
        now rewrite G2, G1, <- !app_assoc. }
    destruct G as [rest G]. exact (world_changed _ _ _ _ G H).
  - intros description. unfold create_table_handler.
    destruct (is_empty description); [now split|].
    split; [|discriminate]. intros H. exfalso.
    unfold create_table_from_text, bind, ret, prompt_create_table in H.
    pose proof (call_llm_starts (create_table_prompt description) 0 w) as S.
    destruct (call_llm sv (create_table_prompt description) 0 w)
      as [sql w1]. cbn [snd] in S.
    pose proof (run_sql_grows sv (clean sql) false w1) as G.
    destruct (run_sql sv (clean sql) false w1) as [result w2].
    cbn [snd] in *. apply (S w2 G). now rewrite H.
  - intros table_name rows_description. unfold insert_rows_handler.
    destruct (is_empty table_name || is_empty rows_description);
      [now split|].
    split; [|discriminate]. intros H. exfalso.
    unfold insert_rows_from_text, bind, ret, prompt_insert_rows in H.
    pose proof (call_llm_starts
                  (insert_rows_prompt table_name rows_description) 0 w) as S.
    destruct (call_llm sv (insert_rows_prompt table_name rows_description)
                0 w) as [sql w1]. cbn [snd] in S.
    pose proof (run_statements_grows sv (split_statements (clean sql)) w1)
      as G.
    destruct (run_statements sv (split_statements (clean sql)) w1)
      as [results w2].
    cbn [snd] in *. apply (S w2 G). now rewrite H.
  - intros question table_name. unfold query_handler.
    destruct (is_empty question || is_empty table_name); [now split|].
    split; [|discriminate]. intros H. exfalso.
    unfold bind at 1 in H.
    destruct (get_table_schema_grows sv table_name w) as [r0 G0].
    destruct (get_table_schema sv table_name w) as [schema w1].
    cbn [snd] in G0. unfold bind at 1, prompt_text_to_sql in H.
    pose proof (call_llm_grows sv (text_to_sql_prompt question schema) 0 w1)
      as G1.
    destruct (call_llm sv (text_to_sql_prompt question schema) 0 w1)
      as [sql w2]. cbn [snd] in G1. unfold bind at 1 in H.
    pose proof (run_sql_grows sv (clean sql) true w2) as G2.
    destruct (run_sql sv (clean sql) true w2) as [[text | res] w3];
      cbn [snd] in G2.
    + assert (G : grows w1 w3) by (eapply grows_trans; eassumption).
      destruct G as [l G].
      assert (E : w3 = w)
        by (destruct (contains (lit "Error") text); exact H).
      subst w3. rewrite G0, <- app_assoc in G.
      symmetry in G. exact (log_grew _ _ _ G).
    + unfold bind, ret, prompt_explain_results in H.
      pose proof (call_llm_grows sv
                    (explain_results_prompt sv question (clean sql)
                       (rows res)) (3 # 10) w3) as G3.
      destruct (call_llm sv _ (3 # 10) w3) as [explanation w4].
      cbn [snd] in *. subst w4.
      assert (G : grows w1 w) by (repeat (eapply grows_trans; try eassumption)).
      destruct G as [l G]. rewrite G0, <- app_assoc in G.
      symmetry in G. exact (log_grew _ _ _ G).
Qed.

(** X18.  [query_handler] always returns its three texts: the subscript
    on a result that is a message is never reached, because every message
    that [run_sql] returns holds "Error". *)
Theorem query_handler_never_raises (question table_name : str)
  (w : World St) :
  exists result_text sql explanation,
    fst (query_handler sv question table_name w)
    = Return (result_text, sql, explanation).
Proof.
  unfold query_handler.
  destruct (is_empty question || is_empty table_name).
  - unfold ret. cbn [fst]. now eexists _, _, _.
  - unfold bind at 1.
    destruct (get_table_schema sv table_name w) as [schema w1].
    unfold bind at 1.
    destruct (prompt_text_to_sql sv question schema w1) as [sql w2].
    unfold bind at 1.
    destruct (run_sql sv (clean sql) true w2) as [[text | res] w3] eqn:R.
    + assert (C : contains (lit "Error") text = true).
      { apply (run_sql_fetch_message sv (clean sql) w2). now rewrite R. }
      rewrite C. unfold ret. cbn [fst]. now eexists _, _, _.
    + unfold bind, ret.
      destruct (prompt_explain_results sv question (clean sql) (rows res) w3)
        as [explanation w4].
      cbn [fst]. now eexists _, _, _.
Qed.

(** X19.  When the generated query fails, the handler returns the
    engine's message with the SQL and an empty explanation, and makes no
    further call: no explanation is asked for. *)
Theorem query_failure_skips_explanation (question table_name : str)
  (w : World St) (text : str) :
  let schema := fst (get_table_schema sv table_name w) in
  let w1 := snd (get_table_schema sv table_name w) in
  let sql := clean (fst (prompt_text_to_sql sv question schema w1)) in
  let w2 := snd (prompt_text_to_sql sv question schema w1) in
  is_empty question = false ->
  is_empty table_name = false ->
  fst (run_sql sv sql true w2) = inl text ->
  query_handler sv question table_name w
  = (Return (text, sql, []), snd (run_sql sv sql true w2))
  /\ log (snd (query_handler sv question table_name w))
     = log w2 ++ EvConnect
         :: (if mysql_connect sv (ext w2) then [EvExecute sql] else []).
Proof.
  intros schema w1 sql w2 Hq Ht Hr.
  assert (E : query_handler sv question table_name w
              = (Return (text, sql, []), snd (run_sql sv sql true w2))).
  { unfold query_handler. rewrite Hq, Ht. cbn [orb].
    subst schema w1 sql w2. unfold bind at 1.
    destruct (get_table_schema sv table_name w) as [schema w1].
    cbn [fst snd] in *. unfold bind at 1.
    destruct (prompt_text_to_sql sv question schema w1) as [raw w2].
    cbn [fst snd] in *. unfold bind at 1.
    pose proof (run_sql_fetch_message sv (clean raw) w2 text Hr) as C.
    destruct (run_sql sv (clean raw) true w2) as [r w3].
    cbn [fst snd] in *. subst r. now rewrite C. }
  split; [exact E|]. rewrite E. cbn [snd]. apply run_sql_log.
Qed.

(** X20.  When the generated query succeeds, the handler asks for one
    explanation, at temperature 0.3, of the question, the SQL and the
    fetched rows, and returns the formatted rows, the SQL and that
    explanation. *)
Theorem query_success_is_explained (question table_name : str)
  (w : World St) (res : ResultSet) :
  let schema := fst (get_table_schema sv table_name w) in
  let w1 := snd (get_table_schema sv table_name w) in
  let sql := clean (fst (prompt_text_to_sql sv question schema w1)) in
  let w2 := snd (prompt_text_to_sql sv question schema w1) in
  let w3 := snd (run_sql sv sql true w2) in
  is_empty question = false ->
  is_empty table_name = false ->
  fst (run_sql sv sql true w2) = inr res ->
  fst (query_handler sv question table_name w)
  = Return (format_results sv res, sql,
            fst (prompt_explain_results sv question sql (rows res) w3))
  /\ log (snd (query_handler sv question table_name w))
     = log w3
       ++ [EvComplete (explain_results_prompt sv question sql (rows res))
             (3 # 10)].
Proof.
  intros schema w1 sql w2 w3 Hq Ht Hr.
  assert (E : query_handler sv question table_name w
              = (Return (format_results sv res, sql,
                         fst (prompt_explain_results sv question sql
                                (rows res) w3)),
                 snd (prompt_explain_results sv question sql (rows res)
                        w3))).
  { unfold query_handler. rewrite Hq, Ht. cbn [orb].
    subst schema w1 sql w2 w3. unfold bind at 1.
    destruct (get_table_schema sv table_name w) as [schema w1].
    cbn [fst snd] in *. unfold bind at 1.
    destruct (prompt_text_to_sql sv question schema w1) as [raw w2].
    cbn [fst snd] in *. unfold bind at 1.
    destruct (run_sql sv (clean raw) true w2) as [r w3].
    cbn [fst snd] in *. subst r. unfold bind, ret.
    destruct (prompt_explain_results sv question (clean raw) (rows res) w3)
      as [explanation w4]. reflexivity. }
  rewrite E. split; [reflexivity|]. cbn [snd].
  unfold prompt_explain_results. now rewrite call_llm_eq.
Qed.

(** X21.  [create_table_from_text] asks the backend once, at temperature
    0, and sends the whole cleaned answer to the engine in one piece, once
    (when the connection is live): the answer is not split into
    statements. *)
Theorem create_table_single_execution (description : str) (w : World St) :
  let raw := fst (prompt_create_table sv description w) in
  let w1 := snd (prompt_create_table sv description w) in
  log (snd (create_table_from_text sv description w))
  = log w ++ EvComplete (create_table_prompt description) 0 :: EvConnect
      :: (if mysql_connect sv (ext w1) then [EvExecute (clean raw)] else []).
Proof.
  intros raw w1. subst raw w1.
  unfold create_table_from_text, bind, ret.
  assert (L : log (snd (prompt_create_table sv description w))
              = log w ++ [EvComplete (create_table_prompt description) 0]).
  { unfold prompt_create_table. now rewrite call_llm_eq. }
  destruct (prompt_create_table sv description w) as [sql w1].
  cbn [fst snd] in *.
  pose proof (run_sql_log sv (clean sql) false w1) as R.
  destruct (run_sql sv (clean sql) false w1) as [result w2].
  cbn [snd] in *. rewrite R, L. now rewrite <- app_assoc.
Qed.

(** X22.  When the cleaned answer of the backend holds nothing but white
    space and terminators, [insert_rows_from_text] sends nothing to the
    engine and reports an empty list of results. *)
Theorem blank_answer_executes_nothing (table_name rows_description : str)
  (w : World St) :
  let raw := fst (prompt_insert_rows sv table_name rows_description w) in
  let w1 := snd (prompt_insert_rows sv table_name rows_description w) in
  (forall c, In c (clean raw) -> c = semicolon \/ is_space c = true) ->
  insert_rows_from_text sv table_name rows_description w
  = (lit "Generated SQL:" ++ nl ++ clean raw ++ nl ++ nl ++ lit "Results:"
     ++ nl, w1).
Proof.
  intros raw w1 H. subst raw w1.
  unfold insert_rows_from_text, bind.
  destruct (prompt_insert_rows sv table_name rows_description w)
    as [sql w1].
  cbn [fst snd] in *.
  assert (E : split_statements (clean sql) = []).
  { destruct (split_statements (clean sql)) as [|st l] eqn:S;
      [reflexivity|]. exfalso.
    assert (N : split_statements (clean sql) <> []) by (rewrite S; discriminate).
    apply split_statements_nonempty in N.
    destruct N as [c [Hin [Hs Hsp]]].
    destruct (H c Hin) as [F | F]; congruence. }
  rewrite E. cbn [run_statements]. unfold ret. cbn [join].
  now rewrite app_nil_r.
Qed.

End Requests.

Lemma query_failure_skips_explanation_witness :
  fst (query_handler (Toy.services (inr (lit "SELEC 1;")) Toy.no_csv)
         (lit "q") (lit "t") (Toy.start [lit "t"]))
  = Return (lit "Error executing query: 1064 (42000): You have an error in your SQL syntax",
            lit "SELEC 1;", []).
Proof.
  exact (f_equal fst
           (proj1 (query_failure_skips_explanation
                     (Toy.services (inr (lit "SELEC 1;")) Toy.no_csv)
                     (lit "q") (lit "t") (Toy.start [lit "t"])
                     (lit "Error executing query: 1064 (42000): You have an error in your SQL syntax")
                     eq_refl eq_refl eq_refl))).
Defined.

Lemma query_success_is_explained_witness :
  fst (query_handler (Toy.services (inr (lit "SELECT 1;")) Toy.no_csv)
         (lit "q") (lit "t") (Toy.start [lit "t"]))
  = Return (format_results (Toy.services (inr (lit "SELECT 1;")) Toy.no_csv)
              {| columns := [lit "1"]; rows := [[VInt 1]] |},
            lit "SELECT 1;", lit "SELECT 1;").
Proof.
  apply (proj1 (query_success_is_explained
                  (Toy.services (inr (lit "SELECT 1;")) Toy.no_csv)
                  (lit "q") (lit "t") (Toy.start [lit "t"])
                  {| columns := [lit "1"]; rows := [[VInt 1]] |}
                  eq_refl eq_refl eq_refl)).
Defined.

Lemma handlers_validate_input_witness :
  snd (create_table_handler (Toy.services (inr (lit "SELECT 1;")) Toy.no_csv)
         [] (Toy.start []))
  = Toy.start [].
Proof.
  apply (proj1 (proj2 (proj2 (handlers_validate_input
                                (Toy.services (inr (lit "SELECT 1;"))
                                   Toy.no_csv)
                                (Toy.start []))))
           []).
  reflexivity.
Defined.

Lemma blank_answer_executes_nothing_witness :
  insert_rows_from_text (Toy.services (inr (lit " ; ;")) Toy.no_csv)
    (lit "t") (lit "nothing") (Toy.start [])
  = (lit "Generated SQL:" ++ nl ++ lit "; ;" ++ nl ++ nl ++ lit "Results:"
     ++ nl,
     snd (prompt_insert_rows (Toy.services (inr (lit " ; ;")) Toy.no_csv)
            (lit "t") (lit "nothing") (Toy.start []))).
Proof.
  apply (blank_answer_executes_nothing
           (Toy.services (inr (lit " ; ;")) Toy.no_csv)
           (lit "t") (lit "nothing") (Toy.start [])).
  intros c H. vm_compute in H.
  destruct H as [<- | [<- | [<- | []]]];
    [now left | now right | now left].
Defined.

End Handlers.
